(** * Per-axis acceleration limits for CoreXY kinematics

    A shallow embedding of [klippy/kinematics/limited_corexy.py]: the class
    [LimitedCoreXYKinematics], its constructor, its command handler
    [cmd_SET_KINEMATICS_LIMIT] and its move evaluator [check_move].

    Number model.  Python's [float] is IEEE 754 binary64.  The file reads
    the program twice.

    - On real numbers: a float is the real number it stands for, and [+],
      [-], [*], [/], [abs], [min], [max], [sqrt], [atan2] and the
      comparisons are the exact operations on [R].  Rounding, infinities,
      signed zeros and NaN are outside this reading.  What Python adds on
      top of arithmetic is kept: a division by zero raises
      [ZeroDivisionError]; [x ** (-2)] raises [OverflowError] when its
      value does not fit a float and is [0.0] when its value is too small
      for one; unpacking a short sequence raises [ValueError]; an attribute
      assignment that precedes a [raise] stays done.

    - On binary64 ([Module Binary64]): [check_move] uses nothing but [+],
      [-], [*], [/], [abs] and comparisons, which IEEE 754 fixes bit for
      bit, so it is embedded once more on the machine numbers themselves.
      This reading decides what the first cannot: whether a divisor that
      is not zero as a real number is zero as a float.

    Effects.  The kinematics object [self] is mutable and lives as long as the
    printer; the move and the G-code command are objects of other modules
    that the handlers call into.  A handler is therefore a function from a
    [World] (the fields of [self], and the calls made so far on foreign
    objects) to an outcome and a new [World]. *)

From Stdlib Require Import Reals Lra Lia List String ZArith Bool.
From Stdlib Require PrimFloat SpecFloat FloatOps FloatAxioms.
Import ListNotations.
Local Open Scope R_scope.

(** ** Python builtins on numbers *)

Module Py.

(** The exceptions that can leave the two handlers. [RangeError] is the
    command error of [gcmd.get_float] / [gcmd.get_int]; [MoveError] is the
    one of the inherited endstop check. *)
Inductive exn : Set :=
| RangeError
| MoveError
| ZeroDivisionError
| OverflowError
| ValueError.

(** [max(a, b)]: the first argument is kept unless the second is greater. *)
Definition max (a b : R) : R := if Rlt_dec a b then b else a.

(** [min(a, b)]: the first argument is kept unless the second is smaller. *)
Definition min (a b : R) : R := if Rlt_dec b a then b else a.

(** [a / b], read on the real numbers: the quotient is exact, so it is
    zero only when [a] is.  [Binary64.div] is the division of the machine,
    whose quotient can round to zero. *)
Definition div (a b : R) : exn + R :=
  if Req_dec_T b 0 then inl ZeroDivisionError else inr (a / b).

(** The value of [x ** (-2)] where Python yields one: [1 / x^2], and [0.0]
    once [1 / x^2] is at most [2^-1075], half the least positive float. *)
Definition inv_square (x : R) : R :=
  if Rle_dec (2 ^ 1075) (x * x) then 0 else powerRZ x (-2).

(** [x ** (-2)]: a zero base with a negative exponent raises
    [ZeroDivisionError]; a result of [2^1024] or more is beyond the
    largest float, and [float.__pow__] raises [OverflowError] for it. *)
Definition pow_neg2 (x : R) : exn + R :=
  if Req_dec_T x 0 then inl ZeroDivisionError
  else if Rle_dec (x * x * 2 ^ 1024) 1 then inl OverflowError
  else inr (inv_square x).

(** [if z:] on a float. *)
Definition truthy (z : R) : bool := if Req_dec_T z 0 then false else true.

(** [a > b] as the test of an [if]. *)
Definition gt (a b : R) : bool := if Rlt_dec b a then true else false.

(** [bool(n)] on an int. *)
Definition bool_of_int (n : Z) : bool := negb (n =? 0)%Z.

(** [math.atan2(y, x)] on finite arguments: the angle of the point
    [(x, y)], in the interval from [-PI] (excluded) to [PI]. *)
Definition atan2 (y x : R) : R :=
  if Rlt_dec 0 x then atan (y / x)
  else if Rlt_dec x 0 then
    (if Rlt_dec y 0 then atan (y / x) - PI else atan (y / x) + PI)
  else if Rlt_dec 0 y then PI / 2
  else if Rlt_dec y 0 then - PI / 2
  else 0.

(** [x, y, z = seq[:3]]. *)
Definition unpack3 (seq : list R) : exn + (R * R * R) :=
  match firstn 3 seq with
  | [x; y; z] => inr (x, y, z)
  | _ => inl ValueError
  end.

End Py.

Export Py(exn(..)).

(** ** Data model *)

(** The fields of [self] that this file reads or writes.  [max_z_velocity]
    and [max_z_accel] are set by the constructor of the base class. *)
Record LimitedCoreXYKinematics : Type := mkKin {
  config_max_accel : R;
  max_x_accel : R;
  max_y_accel : R;
  max_z_accel : R;
  max_z_velocity : R;
  scale_per_axis : bool
}.

Abbreviation Kin := LimitedCoreXYKinematics.

(** [move.toolhead], as far as [check_move] reads it. *)
Record ToolHead : Type := mkToolHead {
  max_velocity : R;
  max_accel : R
}.

(** A move, as far as [check_move] reads it. *)
Record Move : Type := mkMove {
  is_kinematic_move : bool;
  toolhead : ToolHead;
  move_d : R;
  axes_d : list R
}.

(** The parameters of one [SET_KINEMATICS_LIMIT] command line, parsed: a
    parameter is given or not. *)
Record GCodeCommand : Type := mkGcmd {
  X_ACCEL : option R;
  Y_ACCEL : option R;
  Z_ACCEL : option R;
  SCALE : option Z
}.

(** The arguments of the three format strings of the report: the list
    printed with [%r], the policy sentence, and the two numbers printed
    with [%.0f]. *)
Record Report : Type := mkReport {
  accels : list R;
  policy : string;
  min_accel : R;
  angle_degrees : R
}.

(** Calls made on objects of other modules. *)
Inductive event : Type :=
| CheckEndstops (move : Move)
| LimitSpeed (max_v max_a max_pa : R)
| RespondInfo (msg : Report).

Record World : Type := mkWorld {
  self : Kin;
  calls : list event
}.

(** ** A state and exception monad

    State survives an exception, as the fields of a Python object do. *)

Definition M (A : Type) : Type := World -> (exn + A) * World.

Definition ret {A} (a : A) : M A := fun w => (inr a, w).

Definition raise {A} (e : exn) : M A := fun w => (inl e, w).

Definition bind {A B} (c : M A) (k : A -> M B) : M B :=
  fun w =>
    match c w with
    | (inr a, w') => k a w'
    | (inl e, w') => (inl e, w')
    end.

(** A pure computation that may raise. *)
Definition lift {A} (r : exn + A) : M A :=
  match r with
  | inr a => ret a
  | inl e => raise e
  end.

(** [self.f] *)
Definition getattr {A} (f : Kin -> A) : M A := fun w => (inr (f (self w)), w).

(** [self.f = v], given the record update for [f]. *)
Definition setattr (upd : Kin -> Kin) : M unit :=
  fun w => (inr tt, mkWorld (upd (self w)) (calls w)).

(** A call on a foreign object. *)
Definition call (e : event) : M unit :=
  fun w => (inr tt, mkWorld (self w) (calls w ++ [e])).

Declare Scope py_scope.
Delimit Scope py_scope with py.
Notation "x <- c ;; k" := (bind c (fun x => k))
  (at level 61, c at next level, right associativity) : py_scope.
Notation "' p <- c ;; k" := (bind c (fun x => let 'p := x in k))
  (at level 61, p pattern, c at next level, right associativity) : py_scope.
Notation "c ;;; k" := (bind c (fun _ => k))
  (at level 61, right associativity) : py_scope.
Local Open Scope py_scope.

(** Record updates. *)
Definition with_max_x_accel (v : R) (k : Kin) : Kin :=
  mkKin (config_max_accel k) v (max_y_accel k) (max_z_accel k)
        (max_z_velocity k) (scale_per_axis k).
Definition with_max_y_accel (v : R) (k : Kin) : Kin :=
  mkKin (config_max_accel k) (max_x_accel k) v (max_z_accel k)
        (max_z_velocity k) (scale_per_axis k).
Definition with_max_z_accel (v : R) (k : Kin) : Kin :=
  mkKin (config_max_accel k) (max_x_accel k) (max_y_accel k) v
        (max_z_velocity k) (scale_per_axis k).
Definition with_scale_per_axis (b : bool) (k : Kin) : Kin :=
  mkKin (config_max_accel k) (max_x_accel k) (max_y_accel k) (max_z_accel k)
        (max_z_velocity k) b.
Definition with_max_accel (a : R) (m : Move) : Move :=
  mkMove (is_kinematic_move m) (mkToolHead (max_velocity (toolhead m)) a)
         (move_d m) (axes_d m).

(** ** The collaborators *)

(** Modelled from the spec: [gcmd.get_float(name, default, above, maxval)],
    a method of the G-code command object, whose module is not among the
    sources modelled here.  A parameter that is not given yields the
    default, unchecked; a given one must satisfy [above < v <= maxval]
    (section 6: [0 < v <= config_max_accel]) and a violation raises the
    command's error (section 7: [RangeError]). *)
Definition get_float (param : option R) (default above maxval : R)
  : exn + R :=
  match param with
  | None => inr default
  | Some v =>
      if Rlt_dec maxval v then inl RangeError
      else if Rle_dec v above then inl RangeError
      else inr v
  end.

(** Modelled from the spec: [gcmd.get_int(name, default, minval, maxval)]
    of the same object (section 6: [SCALE] is an integer 0/1, by default
    the current value). *)
Definition get_int (param : option Z) (default minval maxval : Z)
  : exn + Z :=
  match param with
  | None => inr default
  | Some n =>
      if (n <? minval)%Z then inl RangeError
      else if (maxval <? n)%Z then inl RangeError
      else inr n
  end.

(** The base class [corexy.CoreXYKinematics], whose module is not among the
    sources modelled here either, is a parameter: [check_move] calls its
    [_check_endstops], which reads the move and the homing state and either
    returns or raises. *)
Class CoreXYKinematics : Type := {
  _check_endstops : Kin -> Move -> option exn
}.

(** ** The class [LimitedCoreXYKinematics] *)

Definition scale_sentence : string :=
  "Per axis accelerations limits scale with current acceleration.".
Definition independent_sentence : string :=
  "Per axis accelerations limits are independant of current acceleration.".

(** Lines 56 to 59: the two numbers of the last line of the report,
    [1/sqrt(self.max_x_accel**(-2) + self.max_y_accel**(-2))] and
    [180*atan2(self.max_x_accel, self.max_y_accel) / pi]. *)
Definition diagonal_minimum_accel : M (R * R) :=
  ax <- getattr max_x_accel ;;
  px <- lift (Py.pow_neg2 ax) ;;
  ay <- getattr max_y_accel ;;
  py <- lift (Py.pow_neg2 ay) ;;
  min_a <- lift (Py.div 1 (sqrt (px + py))) ;;
  ax <- getattr max_x_accel ;;
  ay <- getattr max_y_accel ;;
  angle <- lift (Py.div (180 * Py.atan2 ax ay) PI) ;;
  ret (min_a, angle).

(** Lines 45 to 60. *)
Definition cmd_SET_KINEMATICS_LIMIT (gcmd : GCodeCommand) : M unit :=
  config_max_accel <- getattr config_max_accel ;;
  cur <- getattr max_x_accel ;;
  v <- lift (get_float (X_ACCEL gcmd) cur 0 config_max_accel) ;;
  setattr (with_max_x_accel v) ;;;
  cur <- getattr max_y_accel ;;
  v <- lift (get_float (Y_ACCEL gcmd) cur 0 config_max_accel) ;;
  setattr (with_max_y_accel v) ;;;
  cur <- getattr max_z_accel ;;
  v <- lift (get_float (Z_ACCEL gcmd) cur 0 config_max_accel) ;;
  setattr (with_max_z_accel v) ;;;
  cur <- getattr scale_per_axis ;;
  n <- lift (get_int (SCALE gcmd) (Z.b2z cur) 0 1) ;;
  setattr (with_scale_per_axis (Py.bool_of_int n)) ;;;
  ax <- getattr max_x_accel ;;
  ay <- getattr max_y_accel ;;
  az <- getattr max_z_accel ;;
  scale <- getattr scale_per_axis ;;
  let sentence := if scale then scale_sentence else independent_sentence in
  '(min_a, angle) <- diagonal_minimum_accel ;;
  call (RespondInfo (mkReport [ax; ay; az] sentence min_a angle)).

(** Line 71: [max(abs(x+y), abs(x-y))]. *)
Definition ab_linf (x y : R) : R := Py.max (Rabs (x + y)) (Rabs (x - y)).

Section check_move.

Context {base : CoreXYKinematics}.

(** [self._check_endstops(move)] *)
Definition check_endstops (move : Move) : M unit :=
  fun w =>
    let w' := mkWorld (self w) (calls w ++ [CheckEndstops move]) in
    match _check_endstops (self w) move with
    | Some e => (inl e, w')
    | None => (inr tt, w')
    end.

(** Lines 61 to 90. *)
Definition check_move (move : Move) : M unit :=
  if negb (is_kinematic_move move) then ret tt else
  check_endstops move ;;;
  let toolhead := toolhead move in
  let max_v := max_velocity toolhead in
  let max_a := max_accel toolhead in
  let max_pa := max_a in
  let move_d := move_d move in
  '(x, y, z) <- lift (Py.unpack3 (axes_d move)) ;;
  let ab_linf := ab_linf x y in
  '(max_v, max_a, max_pa) <-
    (if Py.gt ab_linf 0 then
       r <- lift (Py.div move_d ab_linf) ;;
       let max_v := max_v * r in
       max_x_accel <- getattr max_x_accel ;;
       max_y_accel <- getattr max_y_accel ;;
       x_o_a <- lift (Py.div x max_x_accel) ;;
       y_o_a <- lift (Py.div y max_y_accel) ;;
       x_o_pa <- lift (Py.div x max_y_accel) ;;
       y_o_pa <- lift (Py.div y max_x_accel) ;;
       scale <- getattr scale_per_axis ;;
       max_a <- (if scale : bool then
                   config_max_accel <- getattr config_max_accel ;;
                   r <- lift (Py.div move_d config_max_accel) ;;
                   ret (max_a * r)
                 else ret move_d) ;;
       max_pa <- lift (Py.div max_a
                   (Py.max (Rabs (x_o_pa + y_o_pa))
                           (Rabs (x_o_pa - y_o_pa)))) ;;
       max_a <- lift (Py.div max_a
                   (Py.max (Rabs (x_o_a + y_o_a))
                           (Rabs (x_o_a - y_o_a)))) ;;
       ret (max_v, max_a, max_pa)
     else ret (max_v, max_a, max_pa)) ;;
  '(max_v, max_a) <-
    (if Py.truthy z then
       z_ratio <- lift (Py.div move_d (Rabs z)) ;;
       max_z_velocity <- getattr max_z_velocity ;;
       let max_v := Py.min max_v (max_z_velocity * z_ratio) in
       max_z_accel <- getattr max_z_accel ;;
       let max_a := Py.min max_a (max_z_accel * z_ratio) in
       ret (max_v, max_a)
     else ret (max_v, max_a)) ;;
  call (LimitSpeed max_v max_a max_pa).

End check_move.

(** ** The constructor and the loader *)

(** The error of the configuration readers. *)
Inductive config_exn : Set :=
| ConfigError.

(** The options of the [printer] section that the constructor reads,
    parsed: an option is given or not. *)
Record ConfigWrapper : Type := mkConfig {
  opt_max_x_accel : option R;
  opt_max_y_accel : option R;
  opt_scale_xy_accel : option bool
}.

(** Modelled from the spec: [config.getfloat(name, default, above)], a
    method of the configuration object, whose module is not among the
    sources modelled here.  An option that is not given yields the default,
    unchecked; a given one must be above [above] (section 6: must be > 0)
    and a violation raises [ConfigError] (section 7). *)
Definition getfloat (option : option R) (default above : R)
  : config_exn + R :=
  match option with
  | None => inr default
  | Some v => if Rle_dec v above then inl ConfigError else inr v
  end.

(** Modelled from the spec: [config.getboolean(name, default)] of the same
    object (section 6: [scale_xy_accel] is a boolean, by default false). *)
Definition getboolean (option : option bool) (default : bool) : bool :=
  match option with
  | None => default
  | Some b => b
  end.

(** Modelled from the spec: [toolhead.get_max_velocity()], which hands out
    the toolhead's [max_velocity] and [max_accel] (section 3, the baseline
    "captured at construction from the toolhead's default"). *)
Definition get_max_velocity (toolhead : ToolHead) : R * R :=
  (max_velocity toolhead, max_accel toolhead).

(** The constructor of the base class is a parameter, like its endstop
    check: it reads the configuration, may raise, and otherwise sets, of
    the fields modelled here, [max_z_velocity] and [max_z_accel]. *)
Class CoreXYConstructor : Type := {
  base__init__ : ToolHead -> ConfigWrapper -> config_exn + (R * R)
}.

(** Lines 35 to 44.  The result is the new object and the commands it
    registered with the G-code dispatcher. *)
Definition __init__ {base : CoreXYConstructor}
  (toolhead : ToolHead) (config : ConfigWrapper)
  : config_exn + (Kin * list (string * (GCodeCommand -> M unit))) :=
  match base__init__ toolhead config with
  | inl e => inl e
  | inr (max_z_velocity, max_z_accel) =>
      let '(max_velocity, max_accel) := get_max_velocity toolhead in
      let config_max_accel := max_accel in
      match getfloat (opt_max_x_accel config) max_accel 0 with
      | inl e => inl e
      | inr max_x_accel =>
          match getfloat (opt_max_y_accel config) max_accel 0 with
          | inl e => inl e
          | inr max_y_accel =>
              let scale_per_axis :=
                getboolean (opt_scale_xy_accel config) false in
              inr (mkKin config_max_accel max_x_accel max_y_accel
                         max_z_accel max_z_velocity scale_per_axis,
                   [("SET_KINEMATICS_LIMIT"%string,
                     cmd_SET_KINEMATICS_LIMIT)])
          end
      end
  end.

(** Lines 92 and 93. *)
Definition load_kinematics {base : CoreXYConstructor}
  (toolhead : ToolHead) (config : ConfigWrapper)
  : config_exn + (Kin * list (string * (GCodeCommand -> M unit))) :=
  __init__ toolhead config.

(** * The move evaluator on binary64

    [check_move] once more, with Python's floats as the machine has them:
    Rocq's primitive [float] is IEEE 754 binary64 with rounding to nearest,
    ties to even, which is the arithmetic of CPython's [float] for [+],
    [-], [*], [/], [abs] and the comparisons.  Infinities, NaN and the two
    zeros are values like the others: no operation of [check_move] raises
    on them, except the division by a zero of either sign. *)

Module Binary64.

Import PrimFloat.
Local Open Scope float_scope.

(** [max(a, b)]: the first argument is kept unless the second is greater;
    a NaN in first place is kept, since it compares below nothing. *)
Definition max (a b : float) : float := if a <? b then b else a.

(** [min(a, b)]: the first argument is kept unless the second is smaller. *)
Definition min (a b : float) : float := if b <? a then b else a.

(** [a / b]: [float.__truediv__] raises when [b == 0.0], which both zeros
    satisfy, and is the IEEE quotient otherwise. *)
Definition div (a b : float) : exn + float :=
  if is_zero b then inl ZeroDivisionError else inr (a / b).

(** [if z:] on a float: [z != 0.0], so a NaN counts as true. *)
Definition truthy (z : float) : bool := negb (is_zero z).

(** [a > b] as the test of an [if]. *)
Definition gt (a b : float) : bool := b <? a.

(** [x, y, z = seq[:3]]. *)
Definition unpack3 (seq : list float) : exn + (float * float * float) :=
  match firstn 3 seq with
  | [x; y; z] => inr (x, y, z)
  | _ => inl ValueError
  end.

(** The fields of [self] that [check_move] reads. *)
Record LimitedCoreXYKinematics : Type := mkKin {
  config_max_accel : float;
  max_x_accel : float;
  max_y_accel : float;
  max_z_accel : float;
  max_z_velocity : float;
  scale_per_axis : bool
}.

Abbreviation Kin := LimitedCoreXYKinematics.

Record ToolHead : Type := mkToolHead {
  max_velocity : float;
  max_accel : float
}.

Record Move : Type := mkMove {
  is_kinematic_move : bool;
  toolhead : ToolHead;
  move_d : float;
  axes_d : list float
}.

(** The calls [check_move] makes on objects of other modules. *)
Inductive event : Type :=
| CheckEndstops (move : Move)
| LimitSpeed (max_v max_a max_pa : float).

Record World : Type := mkWorld {
  self : Kin;
  calls : list event
}.

(** The state and exception monad of the handlers, over this world. *)
Definition M (A : Type) : Type := World -> (exn + A) * World.

Definition ret {A} (a : A) : M A := fun w => (inr a, w).

Definition raise {A} (e : exn) : M A := fun w => (inl e, w).

Definition bind {A B} (c : M A) (k : A -> M B) : M B :=
  fun w =>
    match c w with
    | (inr a, w') => k a w'
    | (inl e, w') => (inl e, w')
    end.

Definition lift {A} (r : exn + A) : M A :=
  match r with
  | inr a => ret a
  | inl e => raise e
  end.

Definition getattr {A} (f : Kin -> A) : M A := fun w => (inr (f (self w)), w).

Definition call (e : event) : M unit :=
  fun w => (inr tt, mkWorld (self w) (calls w ++ [e])).

Declare Scope py64_scope.
Delimit Scope py64_scope with py64.
Notation "x <- c ;; k" := (bind c (fun x => k))
  (at level 61, c at next level, right associativity) : py64_scope.
Notation "' p <- c ;; k" := (bind c (fun x => let 'p := x in k))
  (at level 61, p pattern, c at next level, right associativity) : py64_scope.
Notation "c ;;; k" := (bind c (fun _ => k))
  (at level 61, right associativity) : py64_scope.
Local Open Scope py64_scope.

(** The base class, as a parameter. *)
Class CoreXYKinematics : Type := {
  _check_endstops : Kin -> Move -> option exn
}.

(** Line 71: [max(abs(x+y), abs(x-y))]. *)
Definition ab_linf (x y : float) : float := max (abs (x + y)) (abs (x - y)).

Section check_move.

Context {base : CoreXYKinematics}.

(** [self._check_endstops(move)] *)
Definition check_endstops (move : Move) : M unit :=
  fun w =>
    let w' := mkWorld (self w) (calls w ++ [CheckEndstops move]) in
    match _check_endstops (self w) move with
    | Some e => (inl e, w')
    | None => (inr tt, w')
    end.

(** Lines 61 to 90. *)
Definition check_move (move : Move) : M unit :=
  if negb (is_kinematic_move move) then ret tt else
  check_endstops move ;;;
  let toolhead := toolhead move in
  let max_v := max_velocity toolhead in
  let max_a := max_accel toolhead in
  let max_pa := max_a in
  let move_d := move_d move in
  '(x, y, z) <- lift (unpack3 (axes_d move)) ;;
  let ab_linf := ab_linf x y in
  '(max_v, max_a, max_pa) <-
    (if gt ab_linf 0 then
       r <- lift (div move_d ab_linf) ;;
       let max_v := max_v * r in
       max_x_accel <- getattr max_x_accel ;;
       max_y_accel <- getattr max_y_accel ;;
       x_o_a <- lift (div x max_x_accel) ;;
       y_o_a <- lift (div y max_y_accel) ;;
       x_o_pa <- lift (div x max_y_accel) ;;
       y_o_pa <- lift (div y max_x_accel) ;;
       scale <- getattr scale_per_axis ;;
       max_a <- (if scale : bool then
                   config_max_accel <- getattr config_max_accel ;;
                   r <- lift (div move_d config_max_accel) ;;
                   ret (max_a * r)
                 else ret move_d) ;;
       max_pa <- lift (div max_a
                   (max (abs (x_o_pa + y_o_pa)) (abs (x_o_pa - y_o_pa)))) ;;
       max_a <- lift (div max_a
                   (max (abs (x_o_a + y_o_a)) (abs (x_o_a - y_o_a)))) ;;
       ret (max_v, max_a, max_pa)
     else ret (max_v, max_a, max_pa)) ;;
  '(max_v, max_a) <-
    (if truthy z then
       z_ratio <- lift (div move_d (abs z)) ;;
       max_z_velocity <- getattr max_z_velocity ;;
       let max_v := min max_v (max_z_velocity * z_ratio) in
       max_z_accel <- getattr max_z_accel ;;
       let max_a := min max_a (max_z_accel * z_ratio) in
       ret (max_v, max_a)
     else ret (max_v, max_a)) ;;
  call (LimitSpeed max_v max_a max_pa).

End check_move.

(** ** Statements and inputs on binary64

    Not code of the program, like the vocabulary below. *)

(** For the proofs the body of [check_move] is read in blocks, as on
    the real numbers: the block under [if ab_linf > 0:] and the block
    under [if z:]. *)
Definition xy_block (max_v max_a move_d x y : float)
  : M (float * float * float) :=
  let max_pa := max_a in
  if gt (ab_linf x y) 0 then
    r <- lift (div move_d (ab_linf x y)) ;;
    let max_v := max_v * r in
    max_x_accel <- getattr max_x_accel ;;
    max_y_accel <- getattr max_y_accel ;;
    x_o_a <- lift (div x max_x_accel) ;;
    y_o_a <- lift (div y max_y_accel) ;;
    x_o_pa <- lift (div x max_y_accel) ;;
    y_o_pa <- lift (div y max_x_accel) ;;
    scale <- getattr scale_per_axis ;;
    max_a <- (if scale : bool then
                config_max_accel <- getattr config_max_accel ;;
                r <- lift (div move_d config_max_accel) ;;
                ret (max_a * r)
              else ret move_d) ;;
    max_pa <- lift (div max_a
                (max (abs (x_o_pa + y_o_pa)) (abs (x_o_pa - y_o_pa)))) ;;
    max_a <- lift (div max_a
                (max (abs (x_o_a + y_o_a)) (abs (x_o_a - y_o_a)))) ;;
    ret (max_v, max_a, max_pa)
  else ret (max_v, max_a, max_pa).

Definition z_block (max_v max_a move_d z : float) : M (float * float) :=
  if truthy z then
    z_ratio <- lift (div move_d (abs z)) ;;
    max_z_velocity <- getattr max_z_velocity ;;
    let max_v := min max_v (max_z_velocity * z_ratio) in
    max_z_accel <- getattr max_z_accel ;;
    let max_a := min max_a (max_z_accel * z_ratio) in
    ret (max_v, max_a)
  else ret (max_v, max_a).

(** The two divisors of lines 84 and 85. *)
Definition divisor_pa (k : Kin) (x y : float) : float :=
  max (abs (x / max_y_accel k + y / max_x_accel k))
      (abs (x / max_y_accel k - y / max_x_accel k)).

Definition divisor_a (k : Kin) (x y : float) : float :=
  max (abs (x / max_x_accel k + y / max_y_accel k))
      (abs (x / max_x_accel k - y / max_y_accel k)).

(** The guard of the block under [if ab_linf > 0:] for one move in one
    world, as the specification words it: with [ab_linf > 0] and positive
    ceilings both divisors are strictly positive, and no division by zero
    occurs. *)
Definition xy_divisions_guarded {base : CoreXYKinematics}
  (move : Move) (w : World) : Prop :=
  forall x y z rest,
    is_kinematic_move move = true ->
    axes_d move = x :: y :: z :: rest ->
    gt (ab_linf x y) 0 = true ->
    gt (max_x_accel (self w)) 0 = true ->
    gt (max_y_accel (self w)) 0 = true ->
    gt (divisor_pa (self w) x y) 0 = true /\
    gt (divisor_a (self w) x y) 0 = true /\
    fst (check_move move w) <> inl ZeroDivisionError.

(** A float is zero, of either sign, or strictly positive, read off its
    sign, significand and exponent. *)
Definition SFzero (X : SpecFloat.spec_float) : bool :=
  match X with SpecFloat.S754_zero _ => true | _ => false end.

Definition SFpositive (X : SpecFloat.spec_float) : bool :=
  match X with
  | SpecFloat.S754_finite false _ _ | SpecFloat.S754_infinity false => true
  | _ => false
  end.

(** The quotients a divisor is built from are both [0.0] or [-0.0]. *)
Definition quotients_vanish (x y ax ay : float) : bool :=
  is_zero (x / ax) && is_zero (y / ay).

(** A printer whose axes are homed and whose moves stay in range. *)
Definition homed : CoreXYKinematics :=
  {| _check_endstops := fun _ _ => None |}.

(** Every ceiling at 9000, independent policy; X at 9000 and Y at 4000
    under the scaling policy. *)
Definition kin9000 : Kin := mkKin 9000 9000 9000 9000 25 false.
Definition kin_scaled : Kin := mkKin 9000 9000 4000 100 25 true.

Definition toolhead3000 : ToolHead := mkToolHead 300 3000.

(** The shortest move there is along X: the least positive float,
    [2^-1074], about [5e-324]. *)
Definition least_x_move : Move :=
  mkMove true toolhead3000 0x1p-1074 [0x1p-1074; 0; 0; 0].

(** 30 mm along X and 40 mm along Y. *)
Definition move_30_40 : Move := mkMove true toolhead3000 50 [30; 40; 0; 0].

(** 50 mm along Z only. *)
Definition pure_z_50 : Move := mkMove true toolhead3000 50 [0; 0; 50; 0].

End Binary64.

(** * Vocabulary of the statements

    The definitions below are not code of the program: they name the
    properties that are stated about it, the closed forms its handlers are
    compared with, and the inputs of the examples. *)

(** ** Validation of the command's parameters *)

(** What [get_float] accepts for an acceleration parameter. *)
Definition valid_accel (cfg : R) (p : option R) : Prop :=
  match p with
  | None => True
  | Some v => 0 < v <= cfg
  end.

(** A given value that is not above zero or is over the configured
    maximum. *)
Definition invalid_accel (cfg : R) (p : option R) : Prop :=
  exists v, p = Some v /\ (v <= 0 \/ cfg < v).

(** The value an accepted parameter leaves in its field. *)
Definition chosen (p : option R) (cur : R) : R :=
  match p with
  | Some v => v
  | None => cur
  end.

(** What [get_int] accepts for the [SCALE] parameter. *)
Definition valid_scale (p : option Z) : Prop :=
  match p with
  | None => True
  | Some n => (0 <= n <= 1)%Z
  end.

(** The flag an accepted [SCALE] leaves in [scale_per_axis]. *)
Definition chosen_scale (p : option Z) (cur : bool) : bool :=
  match p with
  | Some n => Py.bool_of_int n
  | None => cur
  end.

(** The store after a command whose four parameters all pass. *)
Definition updated (gcmd : GCodeCommand) (k : Kin) : Kin :=
  mkKin (config_max_accel k)
        (chosen (X_ACCEL gcmd) (max_x_accel k))
        (chosen (Y_ACCEL gcmd) (max_y_accel k))
        (chosen (Z_ACCEL gcmd) (max_z_accel k))
        (max_z_velocity k)
        (chosen_scale (SCALE gcmd) (scale_per_axis k)).

Definition some_accel_invalid (k : Kin) (gcmd : GCodeCommand) : Prop :=
  invalid_accel (config_max_accel k) (X_ACCEL gcmd) \/
  invalid_accel (config_max_accel k) (Y_ACCEL gcmd) \/
  invalid_accel (config_max_accel k) (Z_ACCEL gcmd).

(** All-or-nothing rejection of one command in one world, as the
    specification words it. *)
Definition all_or_nothing (gcmd : GCodeCommand) (w : World) : Prop :=
  some_accel_invalid (self w) gcmd ->
  fst (cmd_SET_KINEMATICS_LIMIT gcmd w) = inl RangeError /\
  self (snd (cmd_SET_KINEMATICS_LIMIT gcmd w)) = self w.

(** ** The diagnostic *)

(** The two numbers as the source writes them. *)
Definition diagonal_values (ax ay : R) : R * R :=
  (1 / sqrt (Py.inv_square ax + Py.inv_square ay),
   180 * Py.atan2 ax ay / PI).

(** [a ** (-2)] is a normal float, between [2^-1022] and [2^1022]: [a]
    lies between [2^-511] and [2^511] in absolute value.  Below that
    range the power overflows from [2^-512] on; above it the power is a
    subnormal float, and [0.0] from [2^537.5] on. *)
Definition pow_normal (a : R) : Prop :=
  / 2 ^ 1022 <= a * a <= 2 ^ 1022.

(** Both powers of the diagnostic are normal floats. *)
Definition reportable (k : Kin) : Prop :=
  pow_normal (max_x_accel k) /\ pow_normal (max_y_accel k).

(** The diagnostic in one world, as the specification words it: with
    positive ceilings it returns the two numbers. *)
Definition diagnostic_returns (w : World) : Prop :=
  let ax := max_x_accel (self w) in
  let ay := max_y_accel (self w) in
  0 < ax -> 0 < ay ->
  diagonal_minimum_accel w =
  (inr (1 / sqrt (1 / ax ^ 2 + 1 / ay ^ 2), 180 * Py.atan2 ax ay / PI), w).

(** A store whose X ceiling is [1e-200], the command line
    [SET_KINEMATICS_LIMIT X_ACCEL=1e-200] that leaves it there, and a
    store whose two ceilings were configured at [1e200]. *)
Definition kin_tiny_x : Kin := mkKin 9000 1e-200 9000 9000 25 false.
Definition gcmd_x_tiny : GCodeCommand := mkGcmd (Some 1e-200) None None None.
Definition kin_huge_xy : Kin := mkKin 1e200 1e200 1e200 100 25 false.

(** The diagnostic yields its two numbers within [tol] of the reference
    values. *)
Definition diagnostic_within (w : World) (min_ref angle_ref tol : R) : Prop :=
  exists a g,
    diagonal_minimum_accel w = (inr (a, g), w) /\
    Rabs (a - min_ref) <= tol /\ Rabs (g - angle_ref) <= tol.

(** ** The evaluator *)

(** A computation is read-only when it leaves the fields of [self] as they
    were and only adds to the calls made so far. *)
Definition readonly {A} (c : M A) : Prop :=
  forall w, self (snd (c w)) = self w /\
            exists more, calls (snd (c w)) = calls w ++ more.

(** The world after [check_move] made the calls [more]. *)
Definition after (w : World) (more : list event) : World :=
  mkWorld (self w) (calls w ++ more).

(** The endstop check is reached in every call, as the specification words
    it. *)
Definition endstops_always_checked {base : CoreXYKinematics}
  (move : Move) (w : World) : Prop :=
  In (CheckEndstops move) (calls (snd (check_move move w))).

(** The acceleration caps, [max_a] and [max_pa], of the calls of
    [limit_speed] in a list of calls. *)
Definition accel_caps (cs : list event) : list (R * R) :=
  flat_map (fun e => match e with
                     | LimitSpeed _ max_a max_pa => [(max_a, max_pa)]
                     | _ => []
                     end) cs.

(** For the proofs the body of [check_move] is read as the endstop check,
    the unpacking, the block under [if ab_linf > 0:], the block under
    [if z:] and the call of [limit_speed]. *)
Definition xy_block (max_v max_a move_d x y : R) : M (R * R * R) :=
  let max_pa := max_a in
  if Py.gt (ab_linf x y) 0 then
    r <- lift (Py.div move_d (ab_linf x y)) ;;
    let max_v := max_v * r in
    max_x_accel <- getattr max_x_accel ;;
    max_y_accel <- getattr max_y_accel ;;
    x_o_a <- lift (Py.div x max_x_accel) ;;
    y_o_a <- lift (Py.div y max_y_accel) ;;
    x_o_pa <- lift (Py.div x max_y_accel) ;;
    y_o_pa <- lift (Py.div y max_x_accel) ;;
    scale <- getattr scale_per_axis ;;
    max_a <- (if scale : bool then
                config_max_accel <- getattr config_max_accel ;;
                r <- lift (Py.div move_d config_max_accel) ;;
                ret (max_a * r)
              else ret move_d) ;;
    max_pa <- lift (Py.div max_a
                (Py.max (Rabs (x_o_pa + y_o_pa)) (Rabs (x_o_pa - y_o_pa)))) ;;
    max_a <- lift (Py.div max_a
                (Py.max (Rabs (x_o_a + y_o_a)) (Rabs (x_o_a - y_o_a)))) ;;
    ret (max_v, max_a, max_pa)
  else ret (max_v, max_a, max_pa).

Definition z_block (max_v max_a move_d z : R) : M (R * R) :=
  if Py.truthy z then
    z_ratio <- lift (Py.div move_d (Rabs z)) ;;
    max_z_velocity <- getattr max_z_velocity ;;
    let max_v := Py.min max_v (max_z_velocity * z_ratio) in
    max_z_accel <- getattr max_z_accel ;;
    let max_a := Py.min max_a (max_z_accel * z_ratio) in
    ret (max_v, max_a)
  else ret (max_v, max_a).

(** What the block under [if z:] leaves in [max_v] and [max_a]. *)
Definition z_clamp (k : Kin) (max_v max_a move_d z : R) : R * R :=
  if Req_dec_T z 0 then (max_v, max_a)
  else (Rmin max_v (max_z_velocity k * (move_d / Rabs z)),
        Rmin max_a (max_z_accel k * (move_d / Rabs z))).

(** What the block under [if ab_linf > 0:] leaves in [max_v], [max_a] and
    [max_pa], when none of its divisions raises. *)
Definition xy_caps (k : Kin) (max_v max_a move_d x y : R) : R * R * R :=
  if Rlt_dec 0 (ab_linf x y) then
    let base_a :=
      if scale_per_axis k then max_a * (move_d / config_max_accel k)
      else move_d in
    (max_v * (move_d / ab_linf x y),
     base_a / ab_linf (x / max_x_accel k) (y / max_y_accel k),
     base_a / ab_linf (x / max_y_accel k) (y / max_x_accel k))
  else (max_v, max_a, max_a).

(** ** Inputs of the examples *)

(** A printer whose axes are homed and whose moves stay in range: the
    endstop check never raises. *)
Definition homed : CoreXYKinematics :=
  {| _check_endstops := fun _ _ => None |}.

(** A printer that is not homed: every checked move is refused. *)
Definition unhomed : CoreXYKinematics :=
  {| _check_endstops := fun _ _ => Some MoveError |}.

(** The store of the examples of the specification: every ceiling at the
    configured 9000, independent policy. *)
Definition kin9000 : Kin := mkKin 9000 9000 9000 9000 25 false.

Definition world9000 : World := mkWorld kin9000 [].

(** The store of the scaling example: X at 9000, Y at 4000, scaling policy. *)
Definition kin_scaled : Kin := mkKin 9000 9000 4000 100 25 true.

(** [SET_KINEMATICS_LIMIT X_ACCEL=5000 Y_ACCEL=15000] *)
Definition gcmd_x_ok_y_bad : GCodeCommand :=
  mkGcmd (Some 5000) (Some 15000) None None.

(** [SET_KINEMATICS_LIMIT X_ACCEL=15000] *)
Definition gcmd_x_15000 : GCodeCommand :=
  mkGcmd (Some 15000) None None None.

(** [SET_VELOCITY_LIMIT]-style toolhead of the examples. *)
Definition toolhead3000 : ToolHead := mkToolHead 300 3000.

(** An extrude-only move: no XYZ displacement, [move_d] is the filament
    length. *)
Definition extrude_only : Move := mkMove false toolhead3000 5 [0; 0; 0; 5].

(** A move along Z only, 50 mm. *)
Definition pure_z_50 : Move := mkMove true toolhead3000 50 [0; 0; 50; 0].

(** A move along X only, 100 mm. *)
Definition pure_x_100 : Move := mkMove true toolhead3000 100 [100; 0; 0; 0].

(** A diagonal move, 100 mm along X and 50 mm along Y. *)
Definition diagonal_100_50 : Move :=
  mkMove true toolhead3000 (sqrt 12500) [100; 50; 0; 0].

(** ** Stores and command sequences *)

(** The three ceilings lie in the range the command accepts. *)
Definition in_range (k : Kin) : Prop :=
  0 < max_x_accel k <= config_max_accel k /\
  0 < max_y_accel k <= config_max_accel k /\
  0 < max_z_accel k <= config_max_accel k.

(** The two ceilings [check_move] divides by are positive. *)
Definition positive_ceilings (k : Kin) : Prop :=
  0 < max_x_accel k /\ 0 < max_y_accel k.

(** The world after a sequence of command lines, each run to its end or to
    its exception. *)
Fixpoint after_commands (gcmds : list GCodeCommand) (w : World) : World :=
  match gcmds with
  | [] => w
  | gcmd :: rest =>
      after_commands rest (snd (cmd_SET_KINEMATICS_LIMIT gcmd w))
  end.

(** [SET_KINEMATICS_LIMIT] with no parameter. *)
Definition gcmd_query : GCodeCommand := mkGcmd None None None None.

(** The report the command sends for a store. *)
Definition report_of (k : Kin) : Report :=
  mkReport [max_x_accel k; max_y_accel k; max_z_accel k]
           (if scale_per_axis k then scale_sentence
            else independent_sentence)
           (fst (diagonal_values (max_x_accel k) (max_y_accel k)))
           (snd (diagonal_values (max_x_accel k) (max_y_accel k))).

(** The store with the X and Y ceilings exchanged. *)
Definition exchanged (k : Kin) : Kin :=
  with_max_y_accel (max_x_accel k) (with_max_x_accel (max_y_accel k) k).

(** The arguments of the calls of [limit_speed] in a list of calls. *)
Definition limit_speed_calls (cs : list event) : list (R * R * R) :=
  flat_map (fun e => match e with
                     | LimitSpeed max_v max_a max_pa =>
                         [(max_v, max_a, max_pa)]
                     | _ => []
                     end) cs.

(** Every field of [k'] is the field of [k] or a value the command
    accepts; the baseline and the Z velocity are those of [k]. *)
Definition assigned_from (k k' : Kin) : Prop :=
  config_max_accel k' = config_max_accel k /\
  max_z_velocity k' = max_z_velocity k /\
  (max_x_accel k' = max_x_accel k \/
   0 < max_x_accel k' <= config_max_accel k) /\
  (max_y_accel k' = max_y_accel k \/
   0 < max_y_accel k' <= config_max_accel k) /\
  (max_z_accel k' = max_z_accel k \/
   0 < max_z_accel k' <= config_max_accel k).

(** The four parameters of a command line pass their checks. *)
Definition acceptable (cfg : R) (gcmd : GCodeCommand) : Prop :=
  valid_accel cfg (X_ACCEL gcmd) /\ valid_accel cfg (Y_ACCEL gcmd) /\
  valid_accel cfg (Z_ACCEL gcmd) /\ valid_scale (SCALE gcmd).

(** No parameter is given on both command lines. *)
Definition disjoint_params (g1 g2 : GCodeCommand) : Prop :=
  (X_ACCEL g1 = None \/ X_ACCEL g2 = None) /\
  (Y_ACCEL g1 = None \/ Y_ACCEL g2 = None) /\
  (Z_ACCEL g1 = None \/ Z_ACCEL g2 = None) /\
  (SCALE g1 = None \/ SCALE g2 = None).

(** [SET_KINEMATICS_LIMIT X_ACCEL=5000] and
    [SET_KINEMATICS_LIMIT Y_ACCEL=4000 SCALE=1] *)
Definition gcmd_x_5000 : GCodeCommand := mkGcmd (Some 5000) None None None.
Definition gcmd_y_4000_scale : GCodeCommand :=
  mkGcmd None (Some 4000) None (Some 1%Z).

(** ** Closed form of the caps *)

(** The three arguments [check_move] passes to [limit_speed] for a move
    with displacement [x, y, z] and length [move_d], when no division
    raises. *)
Definition caps (k : Kin) (th : ToolHead) (move_d x y z : R) : R * R * R :=
  let '(v, a, pa) :=
    xy_caps k (max_velocity th) (max_accel th) move_d x y in
  let '(v', a') := z_clamp k v a move_d z in
  (v', a', pa).

(** ** Further inputs of the examples and closed forms *)

(** A move in the XY plane: 30 mm along X and 40 mm along Y. *)
Definition move_30_40 : Move := mkMove true toolhead3000 50 [30; 40; 0; 0].

(** A move in space: 30 mm along X, 40 mm along Y, 120 mm along Z. *)
Definition move_30_40_120 : Move :=
  mkMove true toolhead3000 130 [30; 40; 120; 0].

(** The move of the examples with its X displacement reversed. *)
Definition move_m30_40_120 : Move :=
  mkMove true toolhead3000 130 [-30; 40; 120; 0].


(** What [getfloat] accepts for a ceiling of the configuration. *)
Definition valid_option (p : option R) : Prop :=
  match p with
  | None => True
  | Some v => 0 < v
  end.

(** The store a successful construction leaves. *)
Definition constructed (toolhead : ToolHead) (config : ConfigWrapper)
  (max_z_velocity max_z_accel : R) : Kin :=
  mkKin (max_accel toolhead)
        (chosen (opt_max_x_accel config) (max_accel toolhead))
        (chosen (opt_max_y_accel config) (max_accel toolhead))
        max_z_accel max_z_velocity
        (getboolean (opt_scale_xy_accel config) false).

(** A base class that sets the Z limits to 25 and 100. *)
Definition base_z_25_100 : CoreXYConstructor :=
  {| base__init__ := fun _ _ => inr (25, 100) |}.

(** An empty [printer] section, and one with both ceilings and the
    scaling policy. *)
Definition config_defaults : ConfigWrapper := mkConfig None None None.
Definition config_12000_4000 : ConfigWrapper :=
  mkConfig (Some 12000) (Some 4000) (Some true).

(** [SET_KINEMATICS_LIMIT X_ACCEL=5000 SCALE=2] *)
Definition gcmd_x_5000_scale_2 : GCodeCommand :=
  mkGcmd (Some 5000) None None (Some 2%Z).

(** * Facts about the builtins *)

Lemma max_Rmax (a b : R) : Py.max a b = Rmax a b.
Proof.
  unfold Py.max, Rmax.
  destruct (Rlt_dec a b), (Rle_dec a b); lra.
Qed.

Lemma min_Rmin (a b : R) : Py.min a b = Rmin a b.
Proof.
  unfold Py.min, Rmin.
  destruct (Rlt_dec b a), (Rle_dec a b); lra.
Qed.

Lemma div_ok (a b : R) : b <> 0 -> Py.div a b = inr (a / b).
Proof.
  intros Hb. unfold Py.div.
  destruct (Req_dec_T b 0); [contradiction | reflexivity].
Qed.

Lemma div_zero (a : R) : Py.div a 0 = inl ZeroDivisionError.
Proof.
  unfold Py.div. destruct (Req_dec_T 0 0); [reflexivity | contradiction].
Qed.

Lemma truthy_true (z : R) : z <> 0 -> Py.truthy z = true.
Proof.
  intros Hz. unfold Py.truthy.
  destruct (Req_dec_T z 0); [contradiction | reflexivity].
Qed.

Lemma truthy_zero : Py.truthy 0 = false.
Proof.
  unfold Py.truthy. destruct (Req_dec_T 0 0); [reflexivity | contradiction].
Qed.

Lemma gt_true (a b : R) : b < a -> Py.gt a b = true.
Proof.
  intros H. unfold Py.gt. destruct (Rlt_dec b a); [reflexivity | contradiction].
Qed.

Lemma gt_false (a b : R) : a <= b -> Py.gt a b = false.
Proof.
  intros H. unfold Py.gt. destruct (Rlt_dec b a); [lra | reflexivity].
Qed.

(** The belt projection is the 1-norm of the XY displacement. *)
Lemma ab_linf_abs (x y : R) : ab_linf x y = Rabs x + Rabs y.
Proof.
  unfold ab_linf. rewrite max_Rmax.
  unfold Rmax, Rabs.
  destruct (Rle_dec _ _); repeat destruct (Rcase_abs _); lra.
Qed.

Lemma ab_linf_zero : ab_linf 0 0 = 0.
Proof. rewrite ab_linf_abs, Rabs_R0. lra. Qed.

Lemma ab_linf_pos (x y : R) : 0 < ab_linf x y <-> x <> 0 \/ y <> 0.
Proof.
  rewrite ab_linf_abs. unfold Rabs.
  repeat destruct (Rcase_abs _); split; intros H; try lra;
    destruct (Req_dec_T x 0); destruct (Req_dec_T y 0); lra.
Qed.

Lemma unpack3_cons (x y z : R) (rest : list R) :
  Py.unpack3 (x :: y :: z :: rest) = inr (x, y, z).
Proof. reflexivity. Qed.

Lemma powerRZ_neg2 (x : R) : powerRZ x (-2) = 1 / x ^ 2.
Proof. cbn. unfold Rdiv. now rewrite Rmult_1_l. Qed.

Lemma atan2_pos (y x : R) : 0 < x -> Py.atan2 y x = atan (y / x).
Proof.
  intros Hx. unfold Py.atan2.
  destruct (Rlt_dec 0 x); [reflexivity | contradiction].
Qed.

Lemma sqrt_one_plus_sqr_pos (x y : R) : x <> 0 -> 0 < sqrt (1 + (y / x)²).
Proof. intros _. apply sqrt_lt_R0. pose proof (Rle_0_sqr (y / x)). lra. Qed.

Lemma length_factor (x y : R) :
  x <> 0 -> sqrt (x * x + y * y) = Rabs x * sqrt (1 + (y / x)²).
Proof.
  intros Hx. rewrite <- sqrt_Rsqr_abs, <- sqrt_mult.
  - f_equal. unfold Rsqr. field. exact Hx.
  - apply Rle_0_sqr.
  - pose proof (Rle_0_sqr (y / x)). lra.
Qed.

(** [atan2 y x] is the polar angle of the point [(x, y)]. *)
Lemma atan2_polar (y x : R) :
  x <> 0 \/ y <> 0 ->
  let r := sqrt (x * x + y * y) in
  let t := Py.atan2 y x in
  - PI < t <= PI /\ x = r * cos t /\ y = r * sin t.
Proof.
  intros Hxy r t. subst r t. unfold Py.atan2.
  pose proof PI_RGT_0 as HPI.
  destruct (Rlt_dec 0 x) as [Hx|Hx].
  { pose proof (atan_bound (y / x)) as [Hlo Hhi].
    pose proof (sqrt_one_plus_sqr_pos x y ltac:(lra)) as Hs.
    rewrite length_factor by lra. rewrite Rabs_right by lra.
    rewrite cos_atan, sin_atan.
    repeat split; try lra; field; lra. }
  destruct (Rlt_dec x 0) as [Hx'|Hx'].
  { pose proof (atan_bound (y / x)) as [Hlo Hhi].
    pose proof (sqrt_one_plus_sqr_pos x y ltac:(lra)) as Hs.
    rewrite length_factor by lra. rewrite Rabs_left by lra.
    destruct (Rlt_dec y 0) as [Hy|Hy].
    - assert (Hq : 0 < y / x).
      { replace (y / x) with ((- y) / (- x)) by (field; lra).
        apply Rdiv_lt_0_compat; lra. }
      pose proof (atan_increasing 0 (y / x) Hq) as Hat. rewrite atan_0 in Hat.
      rewrite cos_minus, sin_minus, cos_PI, sin_PI, cos_atan, sin_atan.
      repeat split; try lra; field; lra.
    - assert (Hq : y / x <= 0).
      { replace (y / x) with (- (y / (- x))) by (field; lra).
        assert (0 <= y / - x) by (apply Rle_mult_inv_pos; lra). lra. }
      assert (Hat : atan (y / x) <= 0).
      { destruct Hq as [Hq|Hq].
        - pose proof (atan_increasing (y / x) 0 Hq) as H. rewrite atan_0 in H.
          lra.
        - rewrite Hq, atan_0. lra. }
      rewrite neg_cos, neg_sin, cos_atan, sin_atan.
      repeat split; try lra; field; lra. }
  assert (Ex : x = 0) by lra. subst x.
  replace (0 * 0 + y * y) with (Rsqr y) by (unfold Rsqr; ring).
  rewrite sqrt_Rsqr_abs.
  destruct (Rlt_dec 0 y) as [Hy|Hy].
  - rewrite cos_PI2, sin_PI2, Rabs_right by lra. repeat split; lra.
  - destruct (Rlt_dec y 0) as [Hy'|Hy']; [|lra].
    replace (- PI / 2) with (- (PI / 2)) by field.
    rewrite cos_neg, sin_neg, cos_PI2, sin_PI2, Rabs_left by lra.
    repeat split; lra.
Qed.

Lemma inv_square_pos (a : R) : a <> 0 -> 0 < 1 / a ^ 2.
Proof.
  intros Ha. apply Rdiv_lt_0_compat; [lra|].
  replace (a ^ 2) with (Rsqr a) by (unfold Rsqr; ring).
  now apply Rlt_0_sqr.
Qed.

Lemma sum_inv_squares_pos (ax ay : R) :
  ax <> 0 -> ay <> 0 -> 0 < 1 / ax ^ 2 + 1 / ay ^ 2.
Proof.
  intros Hx Hy.
  pose proof (inv_square_pos ax Hx). pose proof (inv_square_pos ay Hy). lra.
Qed.

Lemma quotient_nonzero (a b : R) : a <> 0 -> 0 < b -> a / b <> 0.
Proof.
  intros Ha Hb Hq. apply Ha.
  replace a with (a / b * b) by (field; lra).
  rewrite Hq. lra.
Qed.

Lemma divisor_positive (x y ax ay : R) :
  0 < ab_linf x y -> 0 < ax -> 0 < ay ->
  0 < Py.max (Rabs (x / ax + y / ay)) (Rabs (x / ax - y / ay)).
Proof.
  intros Hab Hx Hy.
  change (0 < ab_linf (x / ax) (y / ay)).
  apply ab_linf_pos. apply ab_linf_pos in Hab.
  destruct Hab as [H|H]; [left|right]; now apply quotient_nonzero.
Qed.

(** * The runtime command *)

(** ** What the parameter readers accept *)

Lemma get_float_valid (p : option R) (cur cfg : R) :
  valid_accel cfg p -> get_float p cur 0 cfg = inr (chosen p cur).
Proof.
  destruct p as [v|]; simpl; [|reflexivity].
  intros [H0 Hc].
  destruct (Rlt_dec cfg v); [lra|].
  destruct (Rle_dec v 0); [lra|reflexivity].
Qed.

Lemma get_float_invalid (p : option R) (cur cfg : R) :
  invalid_accel cfg p -> get_float p cur 0 cfg = inl RangeError.
Proof.
  intros (v & -> & H). simpl.
  destruct (Rlt_dec cfg v); [reflexivity|].
  destruct (Rle_dec v 0); [reflexivity|lra].
Qed.

Lemma valid_or_invalid (cfg : R) (p : option R) :
  valid_accel cfg p \/ invalid_accel cfg p.
Proof.
  destruct p as [v|]; simpl; [|now left].
  destruct (Rle_dec v 0); [right; exists v; auto|].
  destruct (Rlt_dec cfg v); [right; exists v; auto|].
  left; lra.
Qed.

Lemma valid_not_invalid (cfg : R) (p : option R) :
  valid_accel cfg p -> ~ invalid_accel cfg p.
Proof.
  intros Hv (v & -> & H). simpl in Hv. lra.
Qed.

(** An accepted acceleration parameter leaves a ceiling within
    [0 < v <= config_max_accel]. *)
Lemma chosen_in_range (cfg cur : R) (p : option R) :
  valid_accel cfg p -> 0 < cur <= cfg -> 0 < chosen p cur <= cfg.
Proof. destruct p; simpl; auto. Qed.

Lemma get_int_valid (p : option Z) (cur : bool) :
  valid_scale p ->
  get_int p (Z.b2z cur) 0 1 =
  inr (match p with Some n => n | None => Z.b2z cur end).
Proof.
  destruct p as [n|]; simpl; [|reflexivity].
  intros [H0 H1].
  destruct (Z.ltb_spec n 0); [lia|].
  destruct (Z.ltb_spec 1 n); [lia|reflexivity].
Qed.

Lemma bool_of_b2z (b : bool) : Py.bool_of_int (Z.b2z b) = b.
Proof. now destruct b. Qed.

(** ** Rejection *)

Ltac run_cmd :=
  unfold cmd_SET_KINEMATICS_LIMIT, bind, getattr, setattr, lift, ret, raise;
  cbn [self calls fst snd config_max_accel max_x_accel max_y_accel
       max_z_accel max_z_velocity scale_per_axis
       with_max_x_accel with_max_y_accel with_max_z_accel
       with_scale_per_axis X_ACCEL Y_ACCEL Z_ACCEL SCALE].

Lemma cmd_x_invalid (gcmd : GCodeCommand) (w : World) :
  invalid_accel (config_max_accel (self w)) (X_ACCEL gcmd) ->
  cmd_SET_KINEMATICS_LIMIT gcmd w = (inl RangeError, w).
Proof.
  intros Hx. run_cmd.
  rewrite (get_float_invalid _ _ _ Hx). reflexivity.
Qed.

Lemma cmd_y_invalid (gcmd : GCodeCommand) (w : World) :
  valid_accel (config_max_accel (self w)) (X_ACCEL gcmd) ->
  invalid_accel (config_max_accel (self w)) (Y_ACCEL gcmd) ->
  cmd_SET_KINEMATICS_LIMIT gcmd w =
  (inl RangeError,
   mkWorld (with_max_x_accel (chosen (X_ACCEL gcmd) (max_x_accel (self w)))
                             (self w))
           (calls w)).
Proof.
  intros Hx Hy. run_cmd.
  rewrite (get_float_valid _ _ _ Hx).
  rewrite (get_float_invalid _ _ _ Hy). reflexivity.
Qed.

Lemma cmd_z_invalid (gcmd : GCodeCommand) (w : World) :
  valid_accel (config_max_accel (self w)) (X_ACCEL gcmd) ->
  valid_accel (config_max_accel (self w)) (Y_ACCEL gcmd) ->
  invalid_accel (config_max_accel (self w)) (Z_ACCEL gcmd) ->
  cmd_SET_KINEMATICS_LIMIT gcmd w =
  (inl RangeError,
   mkWorld (with_max_y_accel (chosen (Y_ACCEL gcmd) (max_y_accel (self w)))
              (with_max_x_accel (chosen (X_ACCEL gcmd) (max_x_accel (self w)))
                                (self w)))
           (calls w)).
Proof.
  intros Hx Hy Hz. run_cmd.
  rewrite (get_float_valid _ _ _ Hx).
  rewrite (get_float_valid _ _ _ Hy).
  rewrite (get_float_invalid _ _ _ Hz). reflexivity.
Qed.

(** A [SCALE] outside 0..1 is rejected after the three ceilings have been
    assigned. *)
Lemma cmd_scale_invalid (gcmd : GCodeCommand) (w : World) (n : Z) :
  valid_accel (config_max_accel (self w)) (X_ACCEL gcmd) ->
  valid_accel (config_max_accel (self w)) (Y_ACCEL gcmd) ->
  valid_accel (config_max_accel (self w)) (Z_ACCEL gcmd) ->
  SCALE gcmd = Some n -> (n < 0 \/ 1 < n)%Z ->
  cmd_SET_KINEMATICS_LIMIT gcmd w =
  (inl RangeError,
   mkWorld (with_max_z_accel (chosen (Z_ACCEL gcmd) (max_z_accel (self w)))
              (with_max_y_accel (chosen (Y_ACCEL gcmd) (max_y_accel (self w)))
                 (with_max_x_accel
                    (chosen (X_ACCEL gcmd) (max_x_accel (self w)))
                    (self w))))
           (calls w)).
Proof.
  intros Hx Hy Hz Hs Hn. run_cmd.
  rewrite (get_float_valid _ _ _ Hx).
  rewrite (get_float_valid _ _ _ Hy).
  rewrite (get_float_valid _ _ _ Hz).
  rewrite Hs. unfold get_int.
  destruct (Z.ltb_spec n 0); [reflexivity|].
  destruct (Z.ltb_spec 1 n); [reflexivity|lia].
Qed.

(** C1, as stated, fails: [X_ACCEL=5000 Y_ACCEL=15000] against the store
    with every ceiling at 9000 is rejected, and [max_x_accel] reads 5000
    afterwards. *)
Lemma all_or_nothing_fails : ~ all_or_nothing gcmd_x_ok_y_bad world9000.
Proof.
  unfold all_or_nothing. intros H.
  assert (Hinv : some_accel_invalid (self world9000) gcmd_x_ok_y_bad).
  { right; left. exists 15000. split; [reflexivity|]. right. simpl. lra. }
  destruct (H Hinv) as [_ Hself].
  rewrite cmd_y_invalid in Hself.
  - apply (f_equal max_x_accel) in Hself. simpl in Hself. lra.
  - simpl. lra.
  - exists 15000. split; [reflexivity|]. right. simpl. lra.
Qed.

(** C1, amended: a command with an acceleration parameter that is not above
    zero or is over [config_max_accel] fails with [RangeError] and sends no
    report; the fields are assigned in the order X, Y, Z as each parameter
    passes, so the fields before the first rejected parameter hold their
    accepted values, and the rejected field and all later ones (the policy
    flag included) keep their old values.  When [X_ACCEL] is the rejected
    parameter, nothing is mutated. *)
Theorem set_limits_stops_at_first_invalid
  (gcmd : GCodeCommand) (w : World) :
  some_accel_invalid (self w) gcmd ->
  let cfg := config_max_accel (self w) in
  let w' := snd (cmd_SET_KINEMATICS_LIMIT gcmd w) in
  let x' := chosen (X_ACCEL gcmd) (max_x_accel (self w)) in
  let y' := chosen (Y_ACCEL gcmd) (max_y_accel (self w)) in
  fst (cmd_SET_KINEMATICS_LIMIT gcmd w) = inl RangeError /\
  calls w' = calls w /\
  (invalid_accel cfg (X_ACCEL gcmd) -> self w' = self w) /\
  (valid_accel cfg (X_ACCEL gcmd) -> invalid_accel cfg (Y_ACCEL gcmd) ->
   self w' = with_max_x_accel x' (self w)) /\
  (valid_accel cfg (X_ACCEL gcmd) -> valid_accel cfg (Y_ACCEL gcmd) ->
   self w' = with_max_y_accel y' (with_max_x_accel x' (self w))).
Proof.
  intros Hinv cfg w' x' y'. subst w'.
  destruct (valid_or_invalid cfg (X_ACCEL gcmd)) as [Hx|Hx].
  2:{ rewrite (cmd_x_invalid _ _ Hx). simpl.
      repeat split; auto; intros Hv; now apply valid_not_invalid in Hv. }
  destruct (valid_or_invalid cfg (Y_ACCEL gcmd)) as [Hy|Hy].
  2:{ rewrite (cmd_y_invalid _ _ Hx Hy). simpl.
      repeat split; auto.
      - intros Hi. now apply valid_not_invalid in Hx.
      - intros _ Hv. now apply valid_not_invalid in Hv. }
  assert (Hz : invalid_accel cfg (Z_ACCEL gcmd)).
  { destruct Hinv as [H|[H|H]]; auto;
      [now apply valid_not_invalid in Hx | now apply valid_not_invalid in Hy]. }
  rewrite (cmd_z_invalid _ _ Hx Hy Hz). simpl.
  repeat split; auto.
  - intros Hi. now apply valid_not_invalid in Hx.
  - intros _ Hi. now apply valid_not_invalid in Hy.
Qed.

(** The amended C1 at [X_ACCEL=5000 Y_ACCEL=15000]. *)
Lemma set_limits_stops_at_first_invalid_witness :
  fst (cmd_SET_KINEMATICS_LIMIT gcmd_x_ok_y_bad world9000) = inl RangeError /\
  max_x_accel (self (snd (cmd_SET_KINEMATICS_LIMIT gcmd_x_ok_y_bad world9000)))
  = 5000 /\
  max_y_accel (self (snd (cmd_SET_KINEMATICS_LIMIT gcmd_x_ok_y_bad world9000)))
  = 9000.
Proof.
  assert (Hinv : some_accel_invalid (self world9000) gcmd_x_ok_y_bad).
  { right; left. exists 15000. split; [reflexivity|]. right. simpl. lra. }
  destruct (set_limits_stops_at_first_invalid gcmd_x_ok_y_bad world9000 Hinv)
    as (Hr & _ & _ & Hy & _).
  split; [exact Hr|].
  rewrite Hy.
  - split; reflexivity.
  - simpl. lra.
  - exists 15000. split; [reflexivity|]. right. simpl. lra.
Defined.

(** C8: with [config_max_accel = 9000], the command [X_ACCEL=15000] fails
    with [RangeError], and the world afterwards is the world before: the
    four fields read as they did, and no report was sent. *)
Theorem x_accel_15000_rejected (w : World) :
  config_max_accel (self w) = 9000 ->
  cmd_SET_KINEMATICS_LIMIT gcmd_x_15000 w = (inl RangeError, w).
Proof.
  intros Hcfg. apply cmd_x_invalid.
  exists 15000. split; [reflexivity|]. right. rewrite Hcfg. lra.
Qed.

Lemma x_accel_15000_rejected_witness :
  cmd_SET_KINEMATICS_LIMIT gcmd_x_15000 world9000 = (inl RangeError, world9000).
Proof.
  apply (x_accel_15000_rejected world9000). reflexivity.
Defined.

(** ** The diagonal diagnostic *)

(** The power of the diagnostic, where it is a normal float. *)
Lemma inv_square_normal (a : R) :
  pow_normal a -> Py.inv_square a = 1 / a ^ 2.
Proof.
  intros [_ Hhi]. unfold Py.inv_square.
  destruct (Rle_dec (2 ^ 1075) (a * a)); [lra|apply powerRZ_neg2].
Qed.

Lemma pow_neg2_normal (a : R) :
  pow_normal a -> Py.pow_neg2 a = inr (1 / a ^ 2).
Proof.
  intros Ha. pose proof Ha as [Hlo _]. unfold Py.pow_neg2.
  destruct (Req_dec_T a 0) as [->|_]; [lra|].
  destruct (Rle_dec (a * a * 2 ^ 1024) 1); [lra|].
  now rewrite inv_square_normal.
Qed.

Lemma pow_normal_nonzero (a : R) : pow_normal a -> a <> 0.
Proof. intros [Hlo _] ->. lra. Qed.

(** A power that has a value has the value [inv_square], which is not
    negative. *)
Lemma pow_neg2_value (a v : R) :
  Py.pow_neg2 a = inr v -> v = Py.inv_square a /\ 0 <= v.
Proof.
  unfold Py.pow_neg2.
  destruct (Req_dec_T a 0) as [|Ha]; [discriminate|].
  destruct (Rle_dec (a * a * 2 ^ 1024) 1); [discriminate|].
  intros H. injection H as <-. split; [reflexivity|].
  unfold Py.inv_square.
  destruct (Rle_dec (2 ^ 1075) (a * a)); [lra|].
  rewrite powerRZ_neg2. left. now apply inv_square_pos.
Qed.

(** The outcomes of the diagnostic: the first power that raises decides;
    when both have a value, the division by the square root raises exactly
    when both values are [0.0]. The world is never changed. *)
Lemma diagonal_minimum_accel_cases (w : World) :
  let ax := max_x_accel (self w) in
  let ay := max_y_accel (self w) in
  diagonal_minimum_accel w =
  match Py.pow_neg2 ax, Py.pow_neg2 ay with
  | inl e, _ => (inl e, w)
  | inr _, inl e => (inl e, w)
  | inr px, inr py =>
      if Req_dec_T (px + py) 0 then (inl ZeroDivisionError, w)
      else (inr (diagonal_values ax ay), w)
  end.
Proof.
  intros ax ay. subst ax ay.
  unfold diagonal_minimum_accel, bind, lift, getattr, ret, raise.
  cbn [self].
  destruct (Py.pow_neg2 (max_x_accel (self w))) as [e|px] eqn:Ex;
    [reflexivity|].
  destruct (Py.pow_neg2 (max_y_accel (self w))) as [e|py] eqn:Ey;
    [reflexivity|].
  destruct (pow_neg2_value _ _ Ex) as [-> Hpx].
  destruct (pow_neg2_value _ _ Ey) as [-> Hpy].
  destruct (Req_dec_T _ 0) as [E0|E0].
  - rewrite E0, sqrt_0, div_zero. reflexivity.
  - rewrite div_ok by (apply Rgt_not_eq, sqrt_lt_R0; lra).
    rewrite div_ok by apply PI_neq0.
    reflexivity.
Qed.

(** With both powers normal the diagnostic returns its two numbers. *)
Lemma diagonal_minimum_accel_run (w : World) :
  reportable (self w) ->
  diagonal_minimum_accel w =
  (inr (diagonal_values (max_x_accel (self w)) (max_y_accel (self w))), w).
Proof.
  intros [Hx Hy].
  pose proof (diagonal_minimum_accel_cases w) as H. cbv zeta in H.
  rewrite H, (pow_neg2_normal _ Hx), (pow_neg2_normal _ Hy).
  apply pow_normal_nonzero in Hx, Hy.
  destruct (Req_dec_T _ 0) as [E0|E0]; [|reflexivity].
  pose proof (sum_inv_squares_pos _ _ Hx Hy). lra.
Qed.

Lemma diagonal_values_normal (ax ay : R) :
  pow_normal ax -> pow_normal ay ->
  diagonal_values ax ay =
  (1 / sqrt (1 / ax ^ 2 + 1 / ay ^ 2), 180 * Py.atan2 ax ay / PI).
Proof.
  intros Hx Hy. unfold diagonal_values.
  now rewrite (inv_square_normal _ Hx), (inv_square_normal _ Hy).
Qed.

(** The angle of a point with positive coordinates. *)
Lemma atan2_quadrant (y x : R) :
  0 < y -> 0 < x -> 0 < 180 * Py.atan2 y x / PI < 90.
Proof.
  intros Hy Hx. rewrite atan2_pos by exact Hx.
  assert (Hq : 0 < y / x) by (apply Rdiv_lt_0_compat; assumption).
  pose proof (atan_bound (y / x)) as [_ Hhi].
  pose proof (atan_increasing 0 (y / x) Hq) as Hlo. rewrite atan_0 in Hlo.
  assert (HPI : 0 < PI) by apply PI_RGT_0.
  split.
  - apply Rdiv_lt_0_compat; lra.
  - apply Rmult_lt_reg_r with PI; [exact HPI|].
    replace (180 * atan (y / x) / PI * PI) with (180 * atan (y / x))
      by (field; lra).
    lra.
Qed.

(** C4, as stated, fails: [1e-200] is a positive ceiling, and one the
    command accepts, but [1e-200 ** (-2)] is [1e400], beyond every
    float: the diagnostic raises [OverflowError]. *)
Lemma diagnostic_overflows : ~ diagnostic_returns (mkWorld kin_tiny_x []).
Proof.
  unfold diagnostic_returns. cbn [self max_x_accel max_y_accel kin_tiny_x].
  intros H.
  assert (Hrun : diagonal_minimum_accel (mkWorld kin_tiny_x []) =
                 (inl OverflowError, mkWorld kin_tiny_x [])).
  { pose proof (diagonal_minimum_accel_cases (mkWorld kin_tiny_x [])) as C.
    cbv zeta in C. rewrite C. cbn [self max_x_accel max_y_accel kin_tiny_x].
    unfold Py.pow_neg2 at 1.
    destruct (Req_dec_T 1e-200 0); [lra|].
    destruct (Rle_dec (1e-200 * 1e-200 * 2 ^ 1024) 1); [reflexivity|lra]. }
  rewrite Hrun in H.
  assert (H' : (inl OverflowError, mkWorld kin_tiny_x []) =
               (inr (1 / sqrt (1 / 1e-200 ^ 2 + 1 / 9000 ^ 2),
                     180 * Py.atan2 1e-200 9000 / PI),
                mkWorld kin_tiny_x [])) by (apply H; lra).
  discriminate H'.
Qed.

(** C4, amended: for a store whose two ceilings are positive and lie
    between [2^-511] and [2^511], so that their powers [a ** (-2)] are
    normal floats, the diagnostic raises nothing, changes nothing and
    yields [min_accel = 1 / sqrt (1/max_x_accel^2 + 1/max_y_accel^2)] and
    [angle_degrees = 180 * atan2 (max_x_accel, max_y_accel) / pi], an
    angle above 0 and not above 90 degrees. *)
Theorem diagonal_minimum_accel_formula (w : World) :
  let ax := max_x_accel (self w) in
  let ay := max_y_accel (self w) in
  0 < ax -> 0 < ay -> pow_normal ax -> pow_normal ay ->
  diagonal_minimum_accel w =
  (inr (1 / sqrt (1 / ax ^ 2 + 1 / ay ^ 2), 180 * Py.atan2 ax ay / PI), w) /\
  0 < 180 * Py.atan2 ax ay / PI <= 90.
Proof.
  intros ax ay Hx Hy Rx Ry. subst ax ay. split.
  - rewrite diagonal_minimum_accel_run by (split; assumption).
    now rewrite diagonal_values_normal.
  - pose proof (atan2_quadrant _ _ Hx Hy). lra.
Qed.

Lemma diagonal_minimum_accel_formula_witness :
  diagonal_minimum_accel world9000 =
  (inr (1 / sqrt (1 / 9000 ^ 2 + 1 / 9000 ^ 2),
        180 * Py.atan2 9000 9000 / PI), world9000) /\
  0 < 180 * Py.atan2 9000 9000 / PI <= 90.
Proof.
  apply (diagonal_minimum_accel_formula world9000);
    unfold pow_normal; simpl; lra.
Defined.

(** Two ceilings of [1e200], which only the configuration can set: both
    powers are [0.0], and the division by their square root raises. *)
Lemma diagnostic_underflows :
  diagonal_minimum_accel (mkWorld kin_huge_xy []) =
  (inl ZeroDivisionError, mkWorld kin_huge_xy []).
Proof.
  pose proof (diagonal_minimum_accel_cases (mkWorld kin_huge_xy [])) as C.
  cbv zeta in C. rewrite C. cbn [self max_x_accel max_y_accel kin_huge_xy].
  unfold Py.pow_neg2, Py.inv_square.
  destruct (Req_dec_T 1e200 0); [lra|].
  destruct (Rle_dec (1e200 * 1e200 * 2 ^ 1024) 1); [lra|].
  destruct (Rle_dec (2 ^ 1075) (1e200 * 1e200)); [|lra].
  destruct (Req_dec_T (0 + 0) 0); [reflexivity|lra].
Qed.

(** ** Acceptance *)

(** A command whose parameters all pass assigns the four fields and sends
    the report computed from the new values. *)
Lemma cmd_accepted (gcmd : GCodeCommand) (w : World) :
  let cfg := config_max_accel (self w) in
  let k' := updated gcmd (self w) in
  valid_accel cfg (X_ACCEL gcmd) ->
  valid_accel cfg (Y_ACCEL gcmd) ->
  valid_accel cfg (Z_ACCEL gcmd) ->
  valid_scale (SCALE gcmd) ->
  reportable k' ->
  cmd_SET_KINEMATICS_LIMIT gcmd w =
  (inr tt,
   mkWorld k'
     (calls w ++
      [RespondInfo
         (mkReport [max_x_accel k'; max_y_accel k'; max_z_accel k']
            (if scale_per_axis k' then scale_sentence
             else independent_sentence)
            (fst (diagonal_values (max_x_accel k') (max_y_accel k')))
            (snd (diagonal_values (max_x_accel k') (max_y_accel k'))))])).
Proof.
  intros cfg k' Hx Hy Hz Hs Hr. subst cfg k'.
  unfold cmd_SET_KINEMATICS_LIMIT, bind, getattr, setattr, call.
  repeat first
    [ rewrite (get_float_valid _ _ _ Hx)
    | rewrite (get_float_valid _ _ _ Hy)
    | rewrite (get_float_valid _ _ _ Hz)
    | rewrite (get_int_valid _ _ Hs)
    | rewrite diagonal_minimum_accel_run by exact Hr
    | progress cbn [lift ret self calls fst snd config_max_accel max_x_accel
                    max_y_accel max_z_accel max_z_velocity scale_per_axis
                    with_max_x_accel with_max_y_accel with_max_z_accel
                    with_scale_per_axis] ].
  unfold updated, chosen_scale.
  destruct (diagonal_values _ _) as [a g]. cbn [fst snd].
  destruct (SCALE gcmd) as [n|]; [reflexivity|].
  now rewrite bool_of_b2z.
Qed.

(** ** Numerical bounds for the example of the specification *)

(** The alternating series of the arc tangent brackets its value. *)
Lemma atan_series_bounds (x : R) (N : nat) :
  0 < x < 1 ->
  sum_f_R0 (tg_alt (Ratan_seq x)) (S (2 * N)) <= atan x <=
  sum_f_R0 (tg_alt (Ratan_seq x)) (2 * N).
Proof.
  intros Hx.
  assert (H01 : 0 <= x <= 1) by lra.
  rewrite atan_eq_ps_atan by exact Hx.
  unfold ps_atan.
  destruct (Ratan.in_int x) as [Hin|Hout]; [|exfalso; apply Hout; lra].
  destruct (ps_atan_exists_1 x Hin) as [v Hv].
  apply alternated_series_ineq.
  - now apply Ratan_seq_decreasing.
  - now apply Ratan_seq_converging.
  - exact Hv.
Qed.

Lemma atan_4_9_bounds : 0.41815 <= atan (4 / 9) <= 0.41824.
Proof.
  assert (Hx : 0 < 4 / 9 < 1) by lra.
  pose proof (atan_series_bounds (4 / 9) 1 Hx) as [Hlo _].
  pose proof (atan_series_bounds (4 / 9) 2 Hx) as [_ Hhi].
  unfold tg_alt, Ratan_seq in Hlo, Hhi.
  cbn [sum_f_R0 Nat.mul Nat.add pow INR] in Hlo, Hhi.
  split; lra.
Qed.

Lemma PI_bounds : 3.1415 <= PI <= 3.1421.
Proof.
  pose proof (PI_2_3_7_ineq 1) as [Hlo Hhi].
  unfold tg_alt, PI_2_3_7_tg, Ratan_seq in Hlo, Hhi.
  cbn [sum_f_R0 Nat.mul Nat.add pow INR] in Hlo, Hhi.
  split; lra.
Qed.

Lemma atan_9_4 : atan (9 / 4) = PI / 2 - atan (4 / 9).
Proof.
  replace (9 / 4) with (/ (4 / 9)) by (field; lra).
  apply atan_inv. lra.
Qed.

Lemma inv_sqrt_bounds (s lo hi : R) :
  0 < lo -> 0 < hi -> 1 / hi ^ 2 <= s <= 1 / lo ^ 2 ->
  lo <= 1 / sqrt s <= hi.
Proof.
  intros Hlo Hhi [Hs1 Hs2].
  assert (Hroot : forall t, 0 < t -> sqrt (1 / t ^ 2) = 1 / t).
  { intros t Ht. replace (1 / t ^ 2) with ((1 / t) ^ 2) by (field; lra).
    apply sqrt_pow2. apply Rlt_le, Rdiv_lt_0_compat; lra. }
  assert (H1 : 1 / hi <= sqrt s).
  { rewrite <- (Hroot hi Hhi). now apply sqrt_le_1_alt. }
  assert (H2 : sqrt s <= 1 / lo).
  { rewrite <- (Hroot lo Hlo). now apply sqrt_le_1_alt. }
  assert (Hhi' : 0 < 1 / hi) by (apply Rdiv_lt_0_compat; lra).
  assert (Hpos : 0 < sqrt s) by lra.
  split.
  - apply Rmult_le_reg_r with (sqrt s); [exact Hpos|].
    replace (1 / sqrt s * sqrt s) with 1 by (field; lra).
    apply Rle_trans with (lo * (1 / lo)).
    + apply Rmult_le_compat_l; lra.
    + right. field. lra.
  - apply Rmult_le_reg_r with (sqrt s); [exact Hpos|].
    replace (1 / sqrt s * sqrt s) with 1 by (field; lra).
    apply Rle_trans with (hi * (1 / hi)).
    + right. field. lra.
    + apply Rmult_le_compat_l; lra.
Qed.

(** The two numbers of the diagnostic for [max_x_accel = 9000] and
    [max_y_accel = 4000]. *)
Lemma diagonal_9000_4000_values (w : World) :
  max_x_accel (self w) = 9000 ->
  max_y_accel (self w) = 4000 ->
  exists a g,
    diagonal_minimum_accel w = (inr (a, g), w) /\
    3655.245 <= a <= 3655.247 /\ 66.03 <= g <= 66.05.
Proof.
  intros Hx Hy.
  exists (1 / sqrt (1 / 9000 ^ 2 + 1 / 4000 ^ 2)),
         (180 * Py.atan2 9000 4000 / PI).
  split; [|split].
  - assert (H9 : pow_normal 9000) by (unfold pow_normal; lra).
    assert (H4 : pow_normal 4000) by (unfold pow_normal; lra).
    rewrite diagonal_minimum_accel_run
      by (unfold reportable; now rewrite Hx, Hy).
    now rewrite Hx, Hy, diagonal_values_normal.
  - apply inv_sqrt_bounds; lra.
  - rewrite atan2_pos by lra.
    replace (9000 / 4000) with (9 / 4) by lra.
    rewrite atan_9_4.
    pose proof atan_4_9_bounds as [Hlo Hhi].
    pose proof PI_bounds as [Plo Phi].
    assert (HPI : 0 < PI) by lra.
    split.
    + apply Rmult_le_reg_r with PI; [exact HPI|].
      replace (180 * (PI / 2 - atan (4 / 9)) / PI * PI)
        with (90 * PI - 180 * atan (4 / 9)) by (field; lra).
      lra.
    + apply Rmult_le_reg_r with PI; [exact HPI|].
      replace (180 * (PI / 2 - atan (4 / 9)) / PI * PI)
        with (90 * PI - 180 * atan (4 / 9)) by (field; lra).
      lra.
Qed.

(** C3, as stated, fails: for 9000 and 4000 the first number is not within
    0.01 of 3657.9. *)
Lemma diagnostic_not_3657_9 :
  ~ diagnostic_within (mkWorld kin_scaled []) 3657.9 66.04 0.01.
Proof.
  intros (a & g & Hrun & Ha & _).
  destruct (diagonal_9000_4000_values (mkWorld kin_scaled []))
    as (a' & g' & Hrun' & Ha' & _); try reflexivity.
  rewrite Hrun in Hrun'. injection Hrun' as Ea _. subst a'.
  revert Ha. unfold Rabs. destruct (Rcase_abs (a - 3657.9)); lra.
Qed.

(** C3, amended: for [max_x_accel = 9000] and [max_y_accel = 4000] the
    diagnostic computes a minimum acceleration within 0.01 of 3655.25 (not
    3657.9) and an angle within 0.01 of 66.04 degrees. *)
Theorem diagnostic_9000_4000 (w : World) :
  max_x_accel (self w) = 9000 ->
  max_y_accel (self w) = 4000 ->
  diagnostic_within w 3655.25 66.04 0.01.
Proof.
  intros Hx Hy.
  destruct (diagonal_9000_4000_values w Hx Hy) as (a & g & Hrun & Ha & Hg).
  exists a, g. split; [exact Hrun|].
  split; apply Rabs_le; lra.
Qed.

Lemma diagnostic_9000_4000_witness :
  diagnostic_within (mkWorld kin_scaled []) 3655.25 66.04 0.01.
Proof.
  apply (diagnostic_9000_4000 (mkWorld kin_scaled [])); reflexivity.
Defined.

(** * The move evaluator *)

(** ** Handlers that only read [self] *)

Lemma readonly_ret {A} (a : A) : readonly (ret a).
Proof.
  intros w; simpl; split; [reflexivity|].
  exists []. now rewrite app_nil_r.
Qed.

Lemma readonly_raise {A} (e : exn) : readonly (@raise A e).
Proof.
  intros w; simpl; split; [reflexivity|].
  exists []. now rewrite app_nil_r.
Qed.

Lemma readonly_lift {A} (r : exn + A) : readonly (lift r).
Proof. destruct r; [apply readonly_raise | apply readonly_ret]. Qed.

Lemma readonly_getattr {A} (f : Kin -> A) : readonly (getattr f).
Proof.
  intros w; simpl; split; [reflexivity|].
  exists []. now rewrite app_nil_r.
Qed.

Lemma readonly_call (e : event) : readonly (call e).
Proof. intros w; simpl; split; [reflexivity|]. now exists [e]. Qed.

Lemma readonly_bind {A B} (c : M A) (k : A -> M B) :
  readonly c -> (forall a, readonly (k a)) -> readonly (bind c k).
Proof.
  intros Hc Hk w. unfold bind.
  destruct (Hc w) as [Hs [l Hl]].
  destruct (c w) as [[e|a] w1]; simpl in *.
  - split; [exact Hs | now exists l].
  - destruct (Hk a w1) as [Hs' [l' Hl']].
    split; [congruence|].
    exists (l ++ l'). rewrite Hl', Hl. now rewrite app_assoc.
Qed.

Lemma readonly_check_endstops {base : CoreXYKinematics} (move : Move) :
  readonly (check_endstops move).
Proof.
  intros w. unfold check_endstops.
  destruct (_check_endstops (self w) move); simpl;
    (split; [reflexivity | now exists [CheckEndstops move]]).
Qed.

Create HintDb readonly.
#[export] Hint Resolve readonly_ret readonly_raise readonly_lift
  readonly_getattr readonly_call readonly_check_endstops : readonly.

Ltac readonly_step :=
  match goal with
  | |- readonly (bind _ _) => apply readonly_bind; [|intros]
  | |- readonly (if ?b then _ else _) => destruct b
  | |- readonly (let '(_, _) := ?p in _) => destruct p
  | |- readonly _ => solve [auto with readonly]
  end.

(** What follows the endstop check in [check_move] is read-only. *)
Lemma readonly_check_move {base : CoreXYKinematics} (move : Move) :
  readonly (check_move move).
Proof.
  unfold check_move. repeat readonly_step.
Qed.

(** C10: [check_move] leaves every field of [self] as it was, for every
    move and every store, whether it returns or raises; what it computes
    goes to the calls on the move only. *)
Theorem check_move_frame {base : CoreXYKinematics} (move : Move) (w : World) :
  self (snd (check_move move w)) = self w.
Proof.
  apply readonly_check_move.
Qed.

(** ** The endstop check *)

Lemma check_move_not_kinematic {base : CoreXYKinematics}
  (move : Move) (w : World) :
  is_kinematic_move move = false -> check_move move w = (inr tt, w).
Proof.
  intros H. unfold check_move. rewrite H. reflexivity.
Qed.

Lemma check_move_kinematic_calls {base : CoreXYKinematics}
  (move : Move) (w : World) :
  is_kinematic_move move = true ->
  exists rest,
    calls (snd (check_move move w)) = calls w ++ CheckEndstops move :: rest.
Proof.
  intros H. unfold check_move. rewrite H. cbn [negb].
  unfold bind at 1. unfold check_endstops at 1.
  destruct (_check_endstops (self w) move).
  - exists []. reflexivity.
  - match goal with
    | |- context [snd (?k ?w1)] =>
        assert (Hk : readonly k) by repeat readonly_step;
        destruct (Hk w1) as [_ [l Hl]]
    end.
    exists l. rewrite Hl. simpl. now rewrite <- app_assoc.
Qed.

(** A move the endstop check refuses never reaches [limit_speed]. *)
Lemma check_move_refused {base : CoreXYKinematics}
  (move : Move) (w : World) (e : exn) :
  is_kinematic_move move = true ->
  _check_endstops (self w) move = Some e ->
  check_move move w = (inl e, after w [CheckEndstops move]).
Proof.
  intros Hkin Hend. unfold check_move. rewrite Hkin. cbn [negb].
  unfold bind at 1. unfold check_endstops. now rewrite Hend.
Qed.

Lemma unhomed_move_refused :
  @check_move unhomed pure_x_100 world9000 =
  (inl MoveError, after world9000 [CheckEndstops pure_x_100]).
Proof. now apply (@check_move_refused unhomed). Qed.

(** C2, as stated, fails: for an extrude-only move [check_move] returns at
    once and no endstop check is made. *)
Lemma endstops_always_checked_fails :
  ~ @endstops_always_checked homed extrude_only world9000.
Proof.
  unfold endstops_always_checked.
  rewrite check_move_not_kinematic by reflexivity.
  simpl. tauto.
Qed.

(** C2, amended: for a kinematic move the endstop check is the first call
    [check_move] makes, whatever happens afterwards; for a move that is not
    kinematic [check_move] returns at once, with no endstop check and no
    call of [limit_speed], so no cap is altered. *)
Theorem endstops_checked_iff_kinematic {base : CoreXYKinematics}
  (move : Move) (w : World) :
  if is_kinematic_move move
  then exists rest,
      calls (snd (check_move move w)) = calls w ++ CheckEndstops move :: rest
  else check_move move w = (inr tt, w).
Proof.
  destruct (is_kinematic_move move) eqn:H.
  - now apply check_move_kinematic_calls.
  - now apply check_move_not_kinematic.
Qed.

(** ** The XY block and the Z block *)

Lemma check_move_blocks {base : CoreXYKinematics} (move : Move) :
  check_move move =
  if negb (is_kinematic_move move) then ret tt else
  check_endstops move ;;;
  '(x, y, z) <- lift (Py.unpack3 (axes_d move)) ;;
  '(max_v, max_a, max_pa) <-
    xy_block (max_velocity (toolhead move)) (max_accel (toolhead move))
             (move_d move) x y ;;
  '(max_v, max_a) <- z_block max_v max_a (move_d move) z ;;
  call (LimitSpeed max_v max_a max_pa).
Proof. reflexivity. Qed.

Lemma z_block_run (max_v max_a move_d z : R) (w : World) :
  z_block max_v max_a move_d z w =
  (inr (z_clamp (self w) max_v max_a move_d z), w).
Proof.
  unfold z_block, z_clamp, Py.truthy.
  destruct (Req_dec_T z 0) as [Hz|Hz]; [reflexivity|].
  unfold bind, lift, getattr, ret.
  rewrite div_ok by (now apply Rabs_no_R0).
  now rewrite !min_Rmin.
Qed.

Lemma xy_block_run (max_v max_a move_d x y : R) (w : World) :
  0 < max_x_accel (self w) ->
  0 < max_y_accel (self w) ->
  (scale_per_axis (self w) = true -> config_max_accel (self w) <> 0) ->
  xy_block max_v max_a move_d x y w =
  (inr (xy_caps (self w) max_v max_a move_d x y), w).
Proof.
  intros Hx Hy Hcfg. unfold xy_block, xy_caps, Py.gt.
  destruct (Rlt_dec 0 (ab_linf x y)) as [Hab|Hab]; [|reflexivity].
  pose proof (divisor_positive x y _ _ Hab Hx Hy) as Ha.
  pose proof (divisor_positive x y _ _ Hab Hy Hx) as Hpa.
  unfold bind, lift, getattr, ret.
  repeat first [ rewrite div_ok by lra | progress cbn [self calls] ].
  destruct (scale_per_axis (self w)).
  - rewrite (div_ok _ (config_max_accel (self w))) by now apply Hcfg.
    now rewrite !div_ok by lra.
  - now rewrite !div_ok by lra.
Qed.

(** On the real numbers a kinematic move that passes the endstop check
    and has three axes always reaches [limit_speed], provided the ceilings
    it divides by are positive.  On binary64 a quotient can round to zero:
    that reading is the subject of the last part of the file. *)
Lemma check_move_total {base : CoreXYKinematics}
  (move : Move) (w : World) (x y z : R) (rest : list R) :
  is_kinematic_move move = true ->
  _check_endstops (self w) move = None ->
  axes_d move = x :: y :: z :: rest ->
  0 < max_x_accel (self w) ->
  0 < max_y_accel (self w) ->
  (scale_per_axis (self w) = true -> config_max_accel (self w) <> 0) ->
  let th := toolhead move in
  let '(v, a, pa) :=
    xy_caps (self w) (max_velocity th) (max_accel th) (move_d move) x y in
  let '(max_v, max_a) := z_clamp (self w) v a (move_d move) z in
  check_move move w =
  (inr tt, after w [CheckEndstops move; LimitSpeed max_v max_a pa]).
Proof.
  intros Hkin Hend Hax Hx Hy Hcfg th.
  destruct (xy_caps _ _ _ _ _ _) as [[v a] pa] eqn:Hxy.
  destruct (z_clamp _ _ _ _ _) as [max_v max_a] eqn:Hz.
  rewrite check_move_blocks, Hkin. cbn [negb].
  unfold bind at 1. unfold check_endstops. rewrite Hend.
  unfold bind at 1. rewrite Hax, unpack3_cons. cbn [lift ret].
  unfold bind at 1. rewrite xy_block_run by assumption.
  cbn [self calls]. fold th. rewrite Hxy.
  unfold bind at 1. rewrite z_block_run. cbn [self calls]. rewrite Hz.
  unfold call, after. cbn [self calls]. now rewrite <- app_assoc.
Qed.

(** ** Moves along one axis *)

Ltac run_check_move Hkin Hend Hax :=
  unfold check_move, after; rewrite Hkin; cbn [negb];
  unfold bind, check_endstops, lift, getattr, call, ret, raise;
  cbn [self calls]; rewrite Hend, Hax, unpack3_cons.

(** C7: a kinematic move with [x = 0], [y = 0] and [z <> 0] that passes the
    endstop check skips the XY branch; [limit_speed] receives
    [max_v = min(toolhead.max_velocity, max_z_velocity * move_d / |z|)],
    [max_a = min(toolhead.max_accel, max_z_accel * move_d / |z|)] and
    [max_pa = toolhead.max_accel]; when [move_d = |z|] these are
    [min(max_velocity, max_z_velocity)] and [min(max_accel, max_z_accel)]. *)
Theorem pure_z_move {base : CoreXYKinematics}
  (move : Move) (w : World) (z : R) (rest : list R) :
  is_kinematic_move move = true ->
  _check_endstops (self w) move = None ->
  axes_d move = 0 :: 0 :: z :: rest ->
  z <> 0 ->
  let th := toolhead move in
  let z_ratio := move_d move / Rabs z in
  check_move move w =
  (inr tt,
   after w [CheckEndstops move;
            LimitSpeed
              (Rmin (max_velocity th) (max_z_velocity (self w) * z_ratio))
              (Rmin (max_accel th) (max_z_accel (self w) * z_ratio))
              (max_accel th)]) /\
  (move_d move = Rabs z ->
   check_move move w =
   (inr tt,
    after w [CheckEndstops move;
             LimitSpeed (Rmin (max_velocity th) (max_z_velocity (self w)))
                        (Rmin (max_accel th) (max_z_accel (self w)))
                        (max_accel th)])).
Proof.
  intros Hkin Hend Hax Hz th z_ratio.
  assert (Hrun : check_move move w =
    (inr tt,
     after w [CheckEndstops move;
              LimitSpeed
                (Rmin (max_velocity th) (max_z_velocity (self w) * z_ratio))
                (Rmin (max_accel th) (max_z_accel (self w) * z_ratio))
                (max_accel th)])).
  { run_check_move Hkin Hend Hax.
    rewrite ab_linf_zero, (gt_false 0 0) by lra.
    rewrite (truthy_true z Hz).
    rewrite div_ok by (apply Rabs_no_R0; exact Hz).
    cbn [self calls]. rewrite !min_Rmin, <- app_assoc. reflexivity. }
  split; [exact Hrun|].
  intros Hd. rewrite Hrun.
  assert (Hone : z_ratio = 1).
  { unfold z_ratio. rewrite Hd. field. apply Rabs_no_R0; exact Hz. }
  rewrite Hone, !Rmult_1_r. reflexivity.
Qed.

Lemma pure_z_move_witness :
  @check_move homed pure_z_50 world9000 =
  (inr tt,
   after world9000 [CheckEndstops pure_z_50;
                    LimitSpeed (Rmin 300 25) (Rmin 3000 9000) 3000]).
Proof.
  apply (@pure_z_move homed pure_z_50 world9000 50 [0]);
    try reflexivity.
  - lra.
  - simpl. rewrite Rabs_pos_eq; lra.
Defined.

(** C5: the kinematic move [x = 100, y = 0, z = 0, move_d = 100], against a
    store with [max_x_accel = 9000], [config_max_accel = 9000] and the
    scaling policy, requested with [toolhead.max_accel = 3000], reaches
    [limit_speed] with [max_a = 3000]. *)
Theorem pure_x_scaled {base : CoreXYKinematics}
  (move : Move) (w : World) (rest : list R) :
  is_kinematic_move move = true ->
  _check_endstops (self w) move = None ->
  axes_d move = 100 :: 0 :: 0 :: rest ->
  move_d move = 100 ->
  max_accel (toolhead move) = 3000 ->
  config_max_accel (self w) = 9000 ->
  max_x_accel (self w) = 9000 ->
  0 < max_y_accel (self w) ->
  scale_per_axis (self w) = true ->
  check_move move w =
  (inr tt,
   after w [CheckEndstops move;
            LimitSpeed (max_velocity (toolhead move)) 3000
                       (max_y_accel (self w) / 3)]).
Proof.
  intros Hkin Hend Hax Hd Ha Hcfg Hx Hy Hs.
  run_check_move Hkin Hend Hax.
  assert (Hab : ab_linf 100 0 = 100).
  { rewrite ab_linf_abs, Rabs_R0, Rabs_pos_eq; lra. }
  rewrite Hab, (gt_true 100 0) by lra.
  repeat first [ rewrite div_ok by lra | rewrite Hd | rewrite Ha | rewrite Hx
               | rewrite Hs | rewrite Hcfg | progress cbn [self calls] ].
  replace (100 / max_y_accel (self w) + 0 / 9000)
    with (100 / max_y_accel (self w)) by (field; lra).
  replace (100 / max_y_accel (self w) - 0 / 9000)
    with (100 / max_y_accel (self w)) by (field; lra).
  replace (100 / 9000 + 0 / max_y_accel (self w)) with (/ 90) by (field; lra).
  replace (100 / 9000 - 0 / max_y_accel (self w)) with (/ 90) by (field; lra).
  assert (Hq : 0 < 100 / max_y_accel (self w)).
  { apply Rdiv_lt_0_compat; lra. }
  rewrite !max_Rmax, !Rmax_left by lra.
  rewrite !Rabs_pos_eq by lra.
  rewrite !div_ok by lra.
  rewrite truthy_zero. cbn [self calls]. rewrite <- app_assoc.
  replace (max_velocity (toolhead move) * (100 / 100))
    with (max_velocity (toolhead move)) by (field; lra).
  replace (3000 * (100 / 9000) / / 90) with 3000 by (field; lra).
  replace (3000 * (100 / 9000) / (100 / max_y_accel (self w)))
    with (max_y_accel (self w) / 3) by (field; lra).
  reflexivity.
Qed.

Lemma pure_x_scaled_witness :
  @check_move homed pure_x_100 (mkWorld kin_scaled []) =
  (inr tt,
   after (mkWorld kin_scaled [])
         [CheckEndstops pure_x_100; LimitSpeed 300 3000 (4000 / 3)]).
Proof.
  apply (@pure_x_scaled homed pure_x_100 (mkWorld kin_scaled []) [0]);
    try reflexivity.
  simpl. lra.
Defined.

(** The same move under the independent policy: the X ceiling passes
    through unscaled. *)
Lemma pure_x_independent {base : CoreXYKinematics}
  (move : Move) (w : World) (rest : list R) :
  is_kinematic_move move = true ->
  _check_endstops (self w) move = None ->
  axes_d move = 100 :: 0 :: 0 :: rest ->
  move_d move = 100 ->
  max_x_accel (self w) = 9000 ->
  0 < max_y_accel (self w) ->
  scale_per_axis (self w) = false ->
  check_move move w =
  (inr tt,
   after w [CheckEndstops move;
            LimitSpeed (max_velocity (toolhead move)) 9000
                       (max_y_accel (self w))]).
Proof.
  intros Hkin Hend Hax Hd Hx Hy Hs.
  assert (Hx' : 0 < max_x_accel (self w)) by lra.
  assert (Hc : scale_per_axis (self w) = true -> config_max_accel (self w) <> 0)
    by (rewrite Hs; discriminate).
  pose proof (check_move_total move w 100 0 0 rest Hkin Hend Hax Hx' Hy Hc)
    as Hrun.
  unfold xy_caps, z_clamp in Hrun. rewrite Hs, Hd, Hx in Hrun.
  assert (Hab : forall t, 0 < t -> ab_linf t 0 = t).
  { intros t Ht. rewrite ab_linf_abs, Rabs_R0, Rabs_pos_eq; lra. }
  replace (0 / max_y_accel (self w)) with 0 in Hrun by (field; lra).
  replace (0 / 9000) with 0 in Hrun by lra.
  rewrite !Hab in Hrun by (try apply Rdiv_lt_0_compat; lra).
  destruct (Rlt_dec 0 100); [|lra].
  destruct (Req_dec_T 0 0); [|contradiction].
  rewrite Hrun.
  replace (max_velocity (toolhead move) * (100 / 100))
    with (max_velocity (toolhead move)) by (field; lra).
  replace (100 / (100 / 9000)) with 9000 by (field; lra).
  replace (100 / (100 / max_y_accel (self w)))
    with (max_y_accel (self w)) by (field; lra).
  reflexivity.
Qed.

(** ** The independent policy *)

Lemma accel_caps_app (cs more : list event) :
  accel_caps (cs ++ more) = accel_caps cs ++ accel_caps more.
Proof. apply flat_map_app. Qed.

(** C9: under the independent policy ([scale_per_axis = false]) and with
    [ab_linf > 0], two evaluations of the same move against the same
    store that differ only in [toolhead.max_accel] end alike and pass the
    same [max_a] and [max_pa] to [limit_speed]. *)
Theorem independent_policy_ignores_requested_accel
  {base : CoreXYKinematics}
  (move : Move) (w : World) (a1 a2 x y z : R) (rest : list R) :
  scale_per_axis (self w) = false ->
  axes_d move = x :: y :: z :: rest ->
  0 < ab_linf x y ->
  _check_endstops (self w) (with_max_accel a1 move) =
  _check_endstops (self w) (with_max_accel a2 move) ->
  let r1 := check_move (with_max_accel a1 move) w in
  let r2 := check_move (with_max_accel a2 move) w in
  fst r1 = fst r2 /\
  accel_caps (calls (snd r1)) = accel_caps (calls (snd r2)).
Proof.
  intros Hs Hax Hab Hend r1 r2. subst r1 r2.
  unfold check_move.
  change (is_kinematic_move (with_max_accel a1 move))
    with (is_kinematic_move move).
  change (is_kinematic_move (with_max_accel a2 move))
    with (is_kinematic_move move).
  change (axes_d (with_max_accel a1 move)) with (axes_d move).
  change (axes_d (with_max_accel a2 move)) with (axes_d move).
  change (move_d (with_max_accel a1 move)) with (move_d move).
  change (move_d (with_max_accel a2 move)) with (move_d move).
  change (max_velocity (toolhead (with_max_accel a1 move)))
    with (max_velocity (toolhead move)).
  change (max_velocity (toolhead (with_max_accel a2 move)))
    with (max_velocity (toolhead move)).
  destruct (is_kinematic_move move); cbn [negb]; [|split; reflexivity].
  unfold bind, check_endstops, lift, getattr, call, ret, raise.
  cbn [self calls]. rewrite Hend, Hax, unpack3_cons.
  destruct (_check_endstops (self w) (with_max_accel a2 move)).
  { cbn [fst snd calls]. rewrite !accel_caps_app. split; reflexivity. }
  rewrite (gt_true _ _ Hab).
  repeat match goal with
         | |- context [Py.div ?a ?b] =>
             destruct (Py.div a b); cbn [self calls fst snd];
             try rewrite Hs
         end;
    try (rewrite !accel_caps_app; split; reflexivity).
  all: destruct (Py.truthy z); cbn [self calls fst snd];
    repeat match goal with
           | |- context [Py.div ?a ?b] =>
               destruct (Py.div a b); cbn [self calls fst snd]
           end;
    rewrite !accel_caps_app; split; reflexivity.
Qed.

Lemma independent_policy_ignores_requested_accel_witness :
  accel_caps
    (calls (snd (@check_move homed (with_max_accel 3000 diagonal_100_50)
                   world9000))) =
  accel_caps
    (calls (snd (@check_move homed (with_max_accel 500 diagonal_100_50)
                   world9000))).
Proof.
  apply (@independent_policy_ignores_requested_accel homed diagonal_100_50
           world9000 3000 500 100 50 0 [0]); try reflexivity.
  apply ab_linf_pos. left. lra.
Defined.

(** The caps of the diagonal move of the examples, independent policy,
    every ceiling at 9000. *)
Lemma diagonal_caps :
  accel_caps (calls (snd (@check_move homed diagonal_100_50 world9000))) =
  [(60 * sqrt 12500, 60 * sqrt 12500)].
Proof.
  pose proof (@check_move_total homed diagonal_100_50 world9000
                100 50 0 [0] eq_refl eq_refl eq_refl) as Hrun.
  cbn [world9000 kin9000 self max_x_accel max_y_accel scale_per_axis
       config_max_accel] in Hrun.
  specialize (Hrun ltac:(lra) ltac:(lra) ltac:(discriminate)).
  unfold xy_caps, z_clamp in Hrun.
  cbn [kin9000 scale_per_axis max_x_accel max_y_accel diagonal_100_50
       toolhead move_d max_velocity max_accel] in Hrun.
  assert (Hab : forall a b, 0 < b < a -> ab_linf a b = a + b).
  { intros a b H. rewrite ab_linf_abs, !Rabs_pos_eq; lra. }
  rewrite !Hab in Hrun by lra.
  destruct (Rlt_dec 0 (100 + 50)); [|lra].
  destruct (Req_dec_T 0 0); [|contradiction].
  rewrite Hrun. cbn [snd calls after world9000 app accel_caps flat_map].
  replace (sqrt 12500 / (100 / 9000 + 50 / 9000)) with (60 * sqrt 12500)
    by field.
  reflexivity.
Qed.

(** * Further properties of the runtime command *)

Lemma readonly_diagonal_minimum_accel : readonly diagonal_minimum_accel.
Proof. unfold diagonal_minimum_accel. repeat readonly_step. Qed.

(** The diagnostic either raises one of its two exceptions or returns its
    two numbers, and leaves the world as it is. *)
Lemma diagonal_minimum_accel_outcome (w : World) :
  (exists e, (e = ZeroDivisionError \/ e = OverflowError) /\
             diagonal_minimum_accel w = (inl e, w)) \/
  diagonal_minimum_accel w =
  (inr (diagonal_values (max_x_accel (self w)) (max_y_accel (self w))), w).
Proof.
  pose proof (diagonal_minimum_accel_cases w) as H. cbv zeta in H.
  rewrite H.
  assert (Hpow : forall a e, Py.pow_neg2 a = inl e ->
                   e = ZeroDivisionError \/ e = OverflowError).
  { intros a e. unfold Py.pow_neg2.
    destruct (Req_dec_T a 0); [intros [= <-]; now left|].
    destruct (Rle_dec (a * a * 2 ^ 1024) 1); [intros [= <-]; now right|].
    discriminate. }
  destruct (Py.pow_neg2 (max_x_accel (self w))) as [e|px] eqn:Ex.
  { left. exists e. split; [exact (Hpow _ _ Ex)|reflexivity]. }
  destruct (Py.pow_neg2 (max_y_accel (self w))) as [e|py] eqn:Ey.
  { left. exists e. split; [exact (Hpow _ _ Ey)|reflexivity]. }
  destruct (Req_dec_T (px + py) 0).
  - left. exists ZeroDivisionError. split; [now left|reflexivity].
  - now right.
Qed.

(** Once the four parameters pass, the four fields are assigned, whether
    or not the report can be computed afterwards. *)
Lemma cmd_valid_world (gcmd : GCodeCommand) (w : World) :
  let cfg := config_max_accel (self w) in
  let w1 := mkWorld (updated gcmd (self w)) (calls w) in
  valid_accel cfg (X_ACCEL gcmd) ->
  valid_accel cfg (Y_ACCEL gcmd) ->
  valid_accel cfg (Z_ACCEL gcmd) ->
  valid_scale (SCALE gcmd) ->
  cmd_SET_KINEMATICS_LIMIT gcmd w =
  match fst (diagonal_minimum_accel w1) with
  | inl e => (inl e, w1)
  | inr _ => (inr tt, after w1 [RespondInfo (report_of (self w1))])
  end.
Proof.
  intros cfg w1 Hx Hy Hz Hs. subst cfg w1.
  unfold cmd_SET_KINEMATICS_LIMIT, bind, getattr, setattr, call, after.
  repeat first
    [ rewrite (get_float_valid _ _ _ Hx)
    | rewrite (get_float_valid _ _ _ Hy)
    | rewrite (get_float_valid _ _ _ Hz)
    | rewrite (get_int_valid _ _ Hs)
    | progress cbn [lift ret self calls fst snd config_max_accel max_x_accel
                    max_y_accel max_z_accel max_z_velocity scale_per_axis
                    with_max_x_accel with_max_y_accel with_max_z_accel
                    with_scale_per_axis] ].
  assert (Hk : forall cs,
    mkWorld
      (mkKin (config_max_accel (self w))
         (chosen (X_ACCEL gcmd) (max_x_accel (self w)))
         (chosen (Y_ACCEL gcmd) (max_y_accel (self w)))
         (chosen (Z_ACCEL gcmd) (max_z_accel (self w)))
         (max_z_velocity (self w))
         (Py.bool_of_int
            match SCALE gcmd with
            | Some n => n
            | None => Z.b2z (scale_per_axis (self w))
            end)) cs =
    mkWorld (updated gcmd (self w)) cs).
  { intros cs. unfold updated, chosen_scale.
    destruct (SCALE gcmd); [reflexivity | now rewrite bool_of_b2z]. }
  rewrite Hk.
  set (w1 := mkWorld (updated gcmd (self w)) (calls w)).
  destruct (diagonal_minimum_accel_outcome w1) as [(e & _ & H)|H];
    rewrite H; [reflexivity|].
  cbn [fst snd]. unfold report_of.
  assert (Hb : Py.bool_of_int
                 match SCALE gcmd with
                 | Some n => n
                 | None => Z.b2z (scale_per_axis (self w))
                 end = scale_per_axis (updated gcmd (self w))).
  { unfold updated, chosen_scale. cbn [scale_per_axis].
    destruct (SCALE gcmd); [reflexivity | now rewrite bool_of_b2z]. }
  rewrite Hb. subst w1. cbn [self calls].
  now destruct (diagonal_values _ _).
Qed.

Lemma chosen_cases (cfg cur : R) (p : option R) :
  valid_accel cfg p -> chosen p cur = cur \/ 0 < chosen p cur <= cfg.
Proof. destruct p; simpl; auto. Qed.

Lemma valid_scale_dec (p : option Z) :
  valid_scale p \/ exists n, p = Some n /\ (n < 0 \/ 1 < n)%Z.
Proof.
  destruct p as [n|]; simpl; [|now left].
  destruct (Z_lt_dec n 0); [right; exists n; auto|].
  destruct (Z_lt_dec 1 n); [right; exists n; auto|].
  left; lia.
Qed.

(** The outcomes of the command: a rejection or a report that cannot be
    computed, with no call made, or one report of the store as it is
    then. *)
Lemma cmd_outcome (gcmd : GCodeCommand) (w : World) :
  exists k',
    assigned_from (self w) k' /\
    (cmd_SET_KINEMATICS_LIMIT gcmd w = (inl RangeError, mkWorld k' (calls w)) \/
     cmd_SET_KINEMATICS_LIMIT gcmd w =
     (inl ZeroDivisionError, mkWorld k' (calls w)) \/
     cmd_SET_KINEMATICS_LIMIT gcmd w =
     (inl OverflowError, mkWorld k' (calls w)) \/
     cmd_SET_KINEMATICS_LIMIT gcmd w =
     (inr tt, mkWorld k' (calls w ++ [RespondInfo (report_of k')]))).
Proof.
  set (cfg := config_max_accel (self w)).
  assert (Hsame : forall k, assigned_from k k).
  { intros k. unfold assigned_from. tauto. }
  destruct (valid_or_invalid cfg (X_ACCEL gcmd)) as [Hx|Hx].
  2:{ exists (self w). split; [apply Hsame|]. left.
      rewrite (cmd_x_invalid _ _ Hx). now destruct w. }
  pose proof (chosen_cases cfg (max_x_accel (self w)) _ Hx) as Cx.
  destruct (valid_or_invalid cfg (Y_ACCEL gcmd)) as [Hy|Hy].
  2:{ eexists. split; [|left; apply (cmd_y_invalid _ _ Hx Hy)].
      unfold assigned_from; cbn. tauto. }
  pose proof (chosen_cases cfg (max_y_accel (self w)) _ Hy) as Cy.
  destruct (valid_or_invalid cfg (Z_ACCEL gcmd)) as [Hz|Hz].
  2:{ eexists. split; [|left; apply (cmd_z_invalid _ _ Hx Hy Hz)].
      unfold assigned_from; cbn. tauto. }
  pose proof (chosen_cases cfg (max_z_accel (self w)) _ Hz) as Cz.
  destruct (valid_scale_dec (SCALE gcmd)) as [Hs|(n & Hs & Hn)].
  2:{ eexists. split; [|left; apply (cmd_scale_invalid _ _ n Hx Hy Hz Hs Hn)].
      unfold assigned_from; cbn. tauto. }
  exists (updated gcmd (self w)).
  split; [unfold assigned_from, updated; cbn; tauto|].
  rewrite (cmd_valid_world _ _ Hx Hy Hz Hs).
  destruct (diagonal_minimum_accel_outcome
              (mkWorld (updated gcmd (self w)) (calls w)))
    as [(e & [-> | ->] & H)|H]; rewrite H; cbn [fst].
  - right; left. reflexivity.
  - right; right; left. reflexivity.
  - right; right; right. reflexivity.
Qed.

Lemma cmd_assigned_from (gcmd : GCodeCommand) (w : World) :
  assigned_from (self w) (self (snd (cmd_SET_KINEMATICS_LIMIT gcmd w))).
Proof.
  destruct (cmd_outcome gcmd w) as (k' & Hk & [H|[H|[H|H]]]); now rewrite H.
Qed.

Lemma assigned_from_in_range (k k' : Kin) :
  assigned_from k k' -> in_range k -> in_range k'.
Proof.
  intros (Hc & _ & Ax & Ay & Az) (Hx & Hy & Hz).
  unfold in_range. rewrite Hc.
  repeat split;
    first [ destruct Ax as [->|]; lra
          | destruct Ay as [->|]; lra
          | destruct Az as [->|]; lra ].
Qed.

(** What every single command keeps, every sequence of commands keeps. *)
Lemma after_commands_keep (P : Kin -> Prop) :
  (forall k k', assigned_from k k' -> P k -> P k') ->
  forall gcmds w, P (self w) -> P (self (after_commands gcmds w)).
Proof.
  intros HP gcmds.
  induction gcmds as [|gcmd rest IH]; intros w Hw; [exact Hw|].
  cbn [after_commands]. apply IH.
  exact (HP _ _ (cmd_assigned_from gcmd w) Hw).
Qed.

(** X1: a store whose three ceilings lie in [0 < v <= config_max_accel]
    keeps them there through every sequence of commands, accepted or
    rejected in any mix. *)
Theorem commands_keep_range (gcmds : list GCodeCommand) (w : World) :
  in_range (self w) -> in_range (self (after_commands gcmds w)).
Proof.
  apply after_commands_keep. exact assigned_from_in_range.
Qed.

Lemma commands_keep_range_witness :
  in_range (self (after_commands [gcmd_x_ok_y_bad; gcmd_x_15000] world9000)).
Proof.
  apply (commands_keep_range [gcmd_x_ok_y_bad; gcmd_x_15000] world9000).
  unfold in_range; simpl; lra.
Defined.

(** X2: no sequence of commands changes [config_max_accel] or
    [max_z_velocity]. *)
Theorem commands_keep_baseline (gcmds : list GCodeCommand) (w : World) :
  config_max_accel (self (after_commands gcmds w)) =
  config_max_accel (self w) /\
  max_z_velocity (self (after_commands gcmds w)) = max_z_velocity (self w).
Proof.
  apply (after_commands_keep
           (fun k => config_max_accel k = config_max_accel (self w) /\
                     max_z_velocity k = max_z_velocity (self w))).
  - intros k k' (Hc & Hv & _) [Hc' Hv']. split; congruence.
  - now split.
Qed.

(** X3: the command sends exactly one report, of the store as it then is,
    when it returns, and makes no call at all when it raises. *)
Theorem cmd_reports_iff_returns (gcmd : GCodeCommand) (w : World) :
  let r := cmd_SET_KINEMATICS_LIMIT gcmd w in
  match fst r with
  | inr _ =>
      calls (snd r) = calls w ++ [RespondInfo (report_of (self (snd r)))]
  | inl _ => calls (snd r) = calls w
  end.
Proof.
  destruct (cmd_outcome gcmd w) as (k' & _ & [H|[H|[H|H]]]);
    cbv zeta; now rewrite H.
Qed.

Lemma updated_query (k : Kin) : updated gcmd_query k = k.
Proof. now destruct k. Qed.

Lemma updated_twice (gcmd : GCodeCommand) (k : Kin) :
  updated gcmd (updated gcmd k) = updated gcmd k.
Proof.
  unfold updated, chosen, chosen_scale. cbn.
  destruct (X_ACCEL gcmd), (Y_ACCEL gcmd), (Z_ACCEL gcmd), (SCALE gcmd);
    reflexivity.
Qed.

(** The accepted command in terms of [report_of]. *)
Lemma cmd_accepted_report (gcmd : GCodeCommand) (w : World) :
  let cfg := config_max_accel (self w) in
  let k' := updated gcmd (self w) in
  valid_accel cfg (X_ACCEL gcmd) ->
  valid_accel cfg (Y_ACCEL gcmd) ->
  valid_accel cfg (Z_ACCEL gcmd) ->
  valid_scale (SCALE gcmd) ->
  reportable k' ->
  cmd_SET_KINEMATICS_LIMIT gcmd w =
  (inr tt, mkWorld k' (calls w ++ [RespondInfo (report_of k')])).
Proof.
  intros cfg k' Hx Hy Hz Hs Hr.
  now rewrite (cmd_accepted gcmd w Hx Hy Hz Hs Hr).
Qed.

(** X4: the command with no parameter, against a store whose two powers
    [max_x_accel ** (-2)] and [max_y_accel ** (-2)] are normal floats,
    returns, leaves every field as it was and reports the store. *)
Theorem query_reads_store (w : World) :
  reportable (self w) ->
  cmd_SET_KINEMATICS_LIMIT gcmd_query w =
  (inr tt, after w [RespondInfo (report_of (self w))]).
Proof.
  intros Hr.
  rewrite cmd_accepted_report; try exact I;
    rewrite ?updated_query; try assumption.
  reflexivity.
Qed.

Lemma query_reads_store_witness :
  cmd_SET_KINEMATICS_LIMIT gcmd_query world9000 =
  (inr tt, after world9000 [RespondInfo (report_of kin9000)]).
Proof.
  apply (query_reads_store world9000).
  unfold reportable, pow_normal; simpl; lra.
Defined.

(** X5: an accepted command is idempotent.  When its four parameters pass
    and the powers of the new X and Y ceilings are normal floats, the
    command returns, and run again on the store it left it returns again,
    leaves that store as it is and sends the report of the first run once
    more. *)
Theorem cmd_idempotent (gcmd : GCodeCommand) (w : World) :
  let cfg := config_max_accel (self w) in
  let k' := updated gcmd (self w) in
  valid_accel cfg (X_ACCEL gcmd) ->
  valid_accel cfg (Y_ACCEL gcmd) ->
  valid_accel cfg (Z_ACCEL gcmd) ->
  valid_scale (SCALE gcmd) ->
  reportable k' ->
  let r1 := cmd_SET_KINEMATICS_LIMIT gcmd w in
  let r2 := cmd_SET_KINEMATICS_LIMIT gcmd (snd r1) in
  fst r1 = inr tt /\ self (snd r1) = k' /\
  calls (snd r1) = calls w ++ [RespondInfo (report_of k')] /\
  fst r2 = inr tt /\ self (snd r2) = k' /\
  calls (snd r2) =
  calls w ++ [RespondInfo (report_of k'); RespondInfo (report_of k')].
Proof.
  intros cfg k' Hx Hy Hz Hs Hr r1 r2. subst r2 r1 cfg k'.
  rewrite (cmd_accepted_report gcmd w Hx Hy Hz Hs Hr).
  cbn [fst snd self calls].
  set (k' := updated gcmd (self w)) in *.
  set (w1 := mkWorld k' (calls w ++ [RespondInfo (report_of k')])).
  pose proof (cmd_accepted_report gcmd w1) as H. cbv zeta in H.
  change (self w1) with (updated gcmd (self w)) in H.
  rewrite updated_twice in H.
  rewrite (H Hx Hy Hz Hs Hr).
  cbn [fst snd self calls w1]. fold k'.
  rewrite <- app_assoc.
  repeat split.
Qed.

Lemma cmd_idempotent_witness :
  let r1 := cmd_SET_KINEMATICS_LIMIT gcmd_x_5000 world9000 in
  let r2 := cmd_SET_KINEMATICS_LIMIT gcmd_x_5000 (snd r1) in
  fst r1 = inr tt /\ self (snd r1) = updated gcmd_x_5000 kin9000 /\
  calls (snd r1) = [RespondInfo (report_of (updated gcmd_x_5000 kin9000))] /\
  fst r2 = inr tt /\ self (snd r2) = updated gcmd_x_5000 kin9000 /\
  calls (snd r2) =
  [RespondInfo (report_of (updated gcmd_x_5000 kin9000));
   RespondInfo (report_of (updated gcmd_x_5000 kin9000))].
Proof.
  apply (cmd_idempotent gcmd_x_5000 world9000);
    unfold reportable, pow_normal; simpl; try exact I; lra.
Defined.

(** The store after a command whose parameters all pass. *)
Lemma cmd_acceptable_store (gcmd : GCodeCommand) (w : World) :
  acceptable (config_max_accel (self w)) gcmd ->
  self (snd (cmd_SET_KINEMATICS_LIMIT gcmd w)) = updated gcmd (self w).
Proof.
  intros (Hx & Hy & Hz & Hs).
  rewrite (cmd_valid_world _ _ Hx Hy Hz Hs).
  now destruct (fst (diagonal_minimum_accel _)).
Qed.

(** X6: two command lines whose parameters all pass and that name
    different parameters leave the same store in either order. *)
Theorem disjoint_commands_commute (g1 g2 : GCodeCommand) (w : World) :
  acceptable (config_max_accel (self w)) g1 ->
  acceptable (config_max_accel (self w)) g2 ->
  disjoint_params g1 g2 ->
  self (after_commands [g1; g2] w) = self (after_commands [g2; g1] w).
Proof.
  intros H1 H2 (Dx & Dy & Dz & Ds).
  cbn [after_commands].
  rewrite (cmd_acceptable_store g2 (snd (cmd_SET_KINEMATICS_LIMIT g1 w))).
  2:{ rewrite (cmd_acceptable_store g1 w H1). exact H2. }
  rewrite (cmd_acceptable_store g1 (snd (cmd_SET_KINEMATICS_LIMIT g2 w))).
  2:{ rewrite (cmd_acceptable_store g2 w H2). exact H1. }
  rewrite (cmd_acceptable_store g1 w H1), (cmd_acceptable_store g2 w H2).
  unfold updated, chosen, chosen_scale. cbn.
  destruct Dx as [-> | ->], Dy as [-> | ->], Dz as [-> | ->],
           Ds as [-> | ->];
    destruct (X_ACCEL _), (Y_ACCEL _), (Z_ACCEL _), (SCALE _); reflexivity.
Qed.

Lemma disjoint_commands_commute_witness :
  self (after_commands [gcmd_x_5000; gcmd_y_4000_scale] world9000) =
  self (after_commands [gcmd_y_4000_scale; gcmd_x_5000] world9000).
Proof.
  apply (disjoint_commands_commute gcmd_x_5000 gcmd_y_4000_scale world9000).
  - repeat split; simpl; try exact I; lra.
  - repeat split; simpl; try exact I; try lra; lia.
  - repeat split; simpl; auto.
Defined.

(** ** A ceiling the report cannot be computed for *)

(** X28: a ceiling that passes [0 < v <= config_max_accel] can still be
    too small for the report.  When the four parameters pass and the new
    X ceiling is not zero but at most [2^-512], so that its power
    [** (-2)] is beyond the floats, the command assigns the four fields,
    then raises [OverflowError] on line 57 and sends no report. *)
Theorem tiny_ceiling_stored_then_overflow (gcmd : GCodeCommand) (w : World) :
  let cfg := config_max_accel (self w) in
  let k' := updated gcmd (self w) in
  valid_accel cfg (X_ACCEL gcmd) ->
  valid_accel cfg (Y_ACCEL gcmd) ->
  valid_accel cfg (Z_ACCEL gcmd) ->
  valid_scale (SCALE gcmd) ->
  max_x_accel k' <> 0 ->
  max_x_accel k' * max_x_accel k' * 2 ^ 1024 <= 1 ->
  cmd_SET_KINEMATICS_LIMIT gcmd w = (inl OverflowError, mkWorld k' (calls w)).
Proof.
  intros cfg k' Hx Hy Hz Hs Hx0 Hover.
  rewrite (cmd_valid_world _ _ Hx Hy Hz Hs). fold k'.
  pose proof (diagonal_minimum_accel_cases (mkWorld k' (calls w))) as C.
  cbv zeta in C. rewrite C. cbn [self]. unfold Py.pow_neg2 at 1.
  destruct (Req_dec_T (max_x_accel k') 0); [contradiction|].
  destruct (Rle_dec (max_x_accel k' * max_x_accel k' * 2 ^ 1024) 1);
    [reflexivity|contradiction].
Qed.

Lemma tiny_ceiling_stored_then_overflow_witness :
  cmd_SET_KINEMATICS_LIMIT gcmd_x_tiny world9000 =
  (inl OverflowError, mkWorld kin_tiny_x []).
Proof.
  apply (tiny_ceiling_stored_then_overflow gcmd_x_tiny world9000);
    simpl; try exact I; lra.
Defined.

(** * Further properties of the move evaluator *)


(** The evaluator in closed form. *)
Lemma check_move_caps {base : CoreXYKinematics}
  (move : Move) (w : World) (x y z : R) (rest : list R) :
  is_kinematic_move move = true ->
  _check_endstops (self w) move = None ->
  axes_d move = x :: y :: z :: rest ->
  0 < max_x_accel (self w) ->
  0 < max_y_accel (self w) ->
  (scale_per_axis (self w) = true -> config_max_accel (self w) <> 0) ->
  check_move move w =
  (inr tt,
   after w [CheckEndstops move;
            let '(v, a, pa) := caps (self w) (toolhead move) (move_d move)
                                 x y z in
            LimitSpeed v a pa]).
Proof.
  intros Hkin Hend Hax Hx Hy Hc.
  pose proof (check_move_total move w x y z rest Hkin Hend Hax Hx Hy Hc) as H.
  cbv zeta in H. unfold caps.
  destruct (xy_caps _ _ _ _ _ _) as [[v a] pa].
  destruct (z_clamp _ _ _ _ _) as [v' a'].
  exact H.
Qed.

Lemma ab_linf_quotients (x y ax ay : R) :
  0 < ax -> 0 < ay ->
  ab_linf (x / ax) (y / ay) = Rabs x / ax + Rabs y / ay.
Proof.
  intros Hx Hy. rewrite ab_linf_abs.
  unfold Rdiv. rewrite !Rabs_mult, !Rabs_inv.
  rewrite (Rabs_pos_eq ax), (Rabs_pos_eq ay) by lra. reflexivity.
Qed.







(** The caps in terms of the absolute displacements. *)
Lemma caps_abs (k : Kin) (th : ToolHead) (d x y z : R) :
  0 < max_x_accel k -> 0 < max_y_accel k ->
  caps k th d x y z =
  let base_a :=
    if scale_per_axis k then max_accel th * (d / config_max_accel k)
    else d in
  let '(v, a, pa) :=
    if Rlt_dec 0 (Rabs x + Rabs y) then
      (max_velocity th * (d / (Rabs x + Rabs y)),
       base_a / (Rabs x / max_x_accel k + Rabs y / max_y_accel k),
       base_a / (Rabs x / max_y_accel k + Rabs y / max_x_accel k))
    else (max_velocity th, max_accel th, max_accel th) in
  if Req_dec_T (Rabs z) 0 then (v, a, pa)
  else (Rmin v (max_z_velocity k * (d / Rabs z)),
        Rmin a (max_z_accel k * (d / Rabs z)), pa).
Proof.
  intros Hx Hy. unfold caps, xy_caps, z_clamp. cbv zeta.
  rewrite !ab_linf_quotients by assumption.
  rewrite ab_linf_abs.
  destruct (Rlt_dec 0 (Rabs x + Rabs y));
    destruct (Req_dec_T z 0) as [Hz|Hz];
    destruct (Req_dec_T (Rabs z) 0) as [Hz'|Hz']; try reflexivity.
  - exfalso. apply Hz'. rewrite Hz. apply Rabs_R0.
  - exfalso. now apply (Rabs_no_R0 z).
  - exfalso. apply Hz'. rewrite Hz. apply Rabs_R0.
  - exfalso. now apply (Rabs_no_R0 z).
Qed.



(** X15: the caps do not depend on the signs of the displacements: two
    moves of the same length whose displacements agree in absolute value
    reach [limit_speed] with the same three arguments. *)
Theorem caps_mirror {base : CoreXYKinematics}
  (m1 m2 : Move) (w : World) (x1 y1 z1 x2 y2 z2 : R) (r1 r2 : list R) :
  is_kinematic_move m1 = true ->
  is_kinematic_move m2 = true ->
  _check_endstops (self w) m1 = None ->
  _check_endstops (self w) m2 = None ->
  axes_d m1 = x1 :: y1 :: z1 :: r1 ->
  axes_d m2 = x2 :: y2 :: z2 :: r2 ->
  Rabs x1 = Rabs x2 -> Rabs y1 = Rabs y2 -> Rabs z1 = Rabs z2 ->
  move_d m1 = move_d m2 ->
  toolhead m1 = toolhead m2 ->
  0 < max_x_accel (self w) ->
  0 < max_y_accel (self w) ->
  (scale_per_axis (self w) = true -> config_max_accel (self w) <> 0) ->
  exists max_v max_a max_pa,
    check_move m1 w =
    (inr tt, after w [CheckEndstops m1; LimitSpeed max_v max_a max_pa]) /\
    check_move m2 w =
    (inr tt, after w [CheckEndstops m2; LimitSpeed max_v max_a max_pa]).
Proof.
  intros K1 K2 E1 E2 A1 A2 Hx' Hy' Hz' Hd Ht Hx Hy Hc.
  rewrite (check_move_caps m1 w _ _ _ _ K1 E1 A1 Hx Hy Hc).
  rewrite (check_move_caps m2 w _ _ _ _ K2 E2 A2 Hx Hy Hc).
  assert (Hcaps : caps (self w) (toolhead m1) (move_d m1) x1 y1 z1 =
                  caps (self w) (toolhead m2) (move_d m2) x2 y2 z2).
  { rewrite !caps_abs by assumption. now rewrite Hx', Hy', Hz', Hd, Ht. }
  rewrite Hcaps. clear Hcaps.
  destruct (caps _ _ _ _ _ _) as [[v a] pa].
  now exists v, a, pa.
Qed.

Lemma caps_mirror_witness :
  exists max_v max_a max_pa,
    @check_move homed move_30_40_120 (mkWorld kin_scaled []) =
    (inr tt,
     after (mkWorld kin_scaled [])
           [CheckEndstops move_30_40_120; LimitSpeed max_v max_a max_pa]) /\
    @check_move homed move_m30_40_120 (mkWorld kin_scaled []) =
    (inr tt,
     after (mkWorld kin_scaled [])
           [CheckEndstops move_m30_40_120; LimitSpeed max_v max_a max_pa]).
Proof.
  apply (@caps_mirror homed move_30_40_120 move_m30_40_120
           (mkWorld kin_scaled []) 30 40 120 (-30) 40 120 [0] [0]);
    try reflexivity; simpl; try lra.
  unfold Rabs. destruct (Rcase_abs 30), (Rcase_abs (-30)); lra.
Defined.

(** X16: in the XY plane [max_pa] is [max_a] with the two ceilings
    exchanged: against the store with [max_x_accel] and [max_y_accel]
    exchanged the same move gets the same [max_v], and [max_a] and
    [max_pa] trade places. *)
Theorem max_pa_is_max_a_exchanged {base : CoreXYKinematics}
  (move : Move) (w : World) (x y : R) (rest : list R) :
  let w' := mkWorld (exchanged (self w)) (calls w) in
  is_kinematic_move move = true ->
  _check_endstops (self w) move = None ->
  _check_endstops (self w') move = None ->
  axes_d move = x :: y :: 0 :: rest ->
  0 < max_x_accel (self w) ->
  0 < max_y_accel (self w) ->
  (scale_per_axis (self w) = true -> config_max_accel (self w) <> 0) ->
  exists max_v max_a max_pa,
    check_move move w =
    (inr tt, after w [CheckEndstops move; LimitSpeed max_v max_a max_pa]) /\
    check_move move w' =
    (inr tt, after w' [CheckEndstops move; LimitSpeed max_v max_pa max_a]).
Proof.
  intros w' Hkin Hend Hend' Hax Hx Hy Hc.
  rewrite (check_move_caps move w x y 0 rest Hkin Hend Hax Hx Hy Hc).
  rewrite (check_move_caps move w' x y 0 rest Hkin Hend' Hax Hy Hx Hc).
  rewrite !caps_abs by assumption.
  change (self w') with (exchanged (self w)).
  cbn [exchanged with_max_x_accel with_max_y_accel max_x_accel max_y_accel
       max_z_accel max_z_velocity config_max_accel scale_per_axis].
  cbv zeta. rewrite Rabs_R0.
  destruct (Req_dec_T 0 0); [|contradiction].
  destruct (Rlt_dec 0 (Rabs x + Rabs y)); eexists _, _, _; split; reflexivity.
Qed.

Lemma max_pa_is_max_a_exchanged_witness :
  exists max_v max_a max_pa,
    @check_move homed move_30_40 (mkWorld kin_scaled []) =
    (inr tt,
     after (mkWorld kin_scaled [])
           [CheckEndstops move_30_40; LimitSpeed max_v max_a max_pa]) /\
    @check_move homed move_30_40 (mkWorld (exchanged kin_scaled) []) =
    (inr tt,
     after (mkWorld (exchanged kin_scaled) [])
           [CheckEndstops move_30_40; LimitSpeed max_v max_pa max_a]).
Proof.
  apply (@max_pa_is_max_a_exchanged homed move_30_40 (mkWorld kin_scaled [])
           30 40 [0]); try reflexivity; simpl; lra.
Defined.



(** The block under [if ab_linf > 0:] makes no call and no assignment. *)
Lemma xy_block_world (max_v max_a move_d x y : R) (w : World) :
  snd (xy_block max_v max_a move_d x y w) = w.
Proof.
  unfold xy_block, bind, lift, getattr, ret, raise.
  destruct (Py.gt (ab_linf x y) 0); [|reflexivity].
  repeat match goal with
         | |- context [Py.div ?a ?b] =>
             destruct (Py.div a b); cbn [self snd]; try reflexivity
         | |- context [if scale_per_axis ?k then _ else _] =>
             destruct (scale_per_axis k); cbn [self snd]
         end.
Qed.

(** X20: [check_move] calls [limit_speed] exactly once when it returns
    from a kinematic move, and never otherwise: not for a move that is not
    kinematic, and not when it raises. *)
Theorem limit_speed_once {base : CoreXYKinematics} (move : Move) (w : World) :
  let r := check_move move w in
  exists more,
    calls (snd r) = calls w ++ more /\
    List.length (limit_speed_calls more) =
    match fst r with
    | inr _ => if is_kinematic_move move then 1%nat else 0%nat
    | inl _ => 0%nat
    end.
Proof.
  cbv zeta. destruct (check_move move w) as [res w'] eqn:E.
  cbn [fst snd]. rewrite check_move_blocks in E.
  destruct (is_kinematic_move move); cbn [negb] in E.
  2:{ injection E as <- <-. exists []. cbn. now rewrite app_nil_r. }
  unfold bind at 1 in E. unfold check_endstops in E.
  destruct (_check_endstops (self w) move).
  { injection E as <- <-. exists [CheckEndstops move]. cbn.
    split; reflexivity. }
  set (w1 := mkWorld (self w) (calls w ++ [CheckEndstops move])) in E.
  unfold bind at 1 in E.
  destruct (Py.unpack3 (axes_d move)) as [e|[[x y] z]];
    cbn [lift raise ret] in E.
  { injection E as <- <-. exists [CheckEndstops move]. cbn.
    split; reflexivity. }
  unfold bind at 1 in E.
  pose proof (xy_block_world (max_velocity (toolhead move))
                (max_accel (toolhead move)) (move_d move) x y w1) as Hxy.
  destruct (xy_block _ _ _ _ _ w1) as [[e|[[v a] pa]] w2];
    cbn [snd] in Hxy; subst w2.
  { injection E as <- <-. exists [CheckEndstops move]. cbn.
    split; reflexivity. }
  unfold bind at 1 in E. rewrite z_block_run in E.
  destruct (z_clamp _ _ _ _ _) as [v' a'].
  injection E as <- <-.
  exists [CheckEndstops move; LimitSpeed v' a' pa].
  cbn. rewrite <- app_assoc. split; reflexivity.
Qed.

(** * The constructor and the loader *)

Lemma getfloat_valid (p : option R) (default : R) :
  valid_option p -> getfloat p default 0 = inr (chosen p default).
Proof.
  destruct p as [v|]; simpl; [|reflexivity].
  intros Hv. destruct (Rle_dec v 0); [lra|reflexivity].
Qed.

Lemma getfloat_invalid (p : option R) (default : R) :
  ~ valid_option p -> getfloat p default 0 = inl ConfigError.
Proof.
  destruct p as [v|]; simpl; [|tauto].
  intros Hv. destruct (Rle_dec v 0); [reflexivity|]. exfalso. apply Hv. lra.
Qed.

Lemma valid_option_dec (p : option R) : valid_option p \/ ~ valid_option p.
Proof.
  destruct p as [v|]; simpl; [|now left].
  destruct (Rlt_dec 0 v); [now left | now right].
Qed.

(** The outcomes of the loader. *)
Lemma load_kinematics_cases {base : CoreXYConstructor}
  (toolhead : ToolHead) (config : ConfigWrapper) :
  load_kinematics toolhead config =
  match base__init__ toolhead config with
  | inl e => inl e
  | inr (vz, az) =>
      match getfloat (opt_max_x_accel config) (max_accel toolhead) 0,
            getfloat (opt_max_y_accel config) (max_accel toolhead) 0 with
      | inr _, inr _ =>
          inr (constructed toolhead config vz az,
               [("SET_KINEMATICS_LIMIT"%string, cmd_SET_KINEMATICS_LIMIT)])
      | inl e, _ => inl e
      | _, inl e => inl e
      end
  end.
Proof.
  unfold load_kinematics, __init__, constructed, get_max_velocity.
  destruct (base__init__ toolhead config) as [e|[vz az]]; [reflexivity|].
  destruct (opt_max_x_accel config) as [vx|], (opt_max_y_accel config) as [vy|];
    cbn [getfloat chosen];
    repeat match goal with
           | |- context [Rle_dec ?a ?b] => destruct (Rle_dec a b)
           end; reflexivity.
Qed.

(** X21: the loader fails exactly when the constructor of the base class
    fails or a ceiling given in the configuration is not above zero; it
    then fails with [ConfigError] and no object is made. *)
Theorem load_kinematics_fails_iff {base : CoreXYConstructor}
  (toolhead : ToolHead) (config : ConfigWrapper) :
  load_kinematics toolhead config = inl ConfigError <->
  (exists e, base__init__ toolhead config = inl e) \/
  ~ valid_option (opt_max_x_accel config) \/
  ~ valid_option (opt_max_y_accel config).
Proof.
  rewrite load_kinematics_cases.
  destruct (base__init__ toolhead config) as [[]|[vz az]].
  { split; [intros _; left; now exists ConfigError | reflexivity]. }
  destruct (valid_option_dec (opt_max_x_accel config)) as [Hx|Hx];
    destruct (valid_option_dec (opt_max_y_accel config)) as [Hy|Hy];
    rewrite ?(getfloat_valid _ _ Hx), ?(getfloat_valid _ _ Hy),
            ?(getfloat_invalid _ _ Hx), ?(getfloat_invalid _ _ Hy).
  - split; [discriminate|]. intros [[e He]|[H|H]]; [discriminate| |];
      contradiction.
  - split; [intros _; now right; right | reflexivity].
  - split; [intros _; now right; left | reflexivity].
  - split; [intros _; now right; left | reflexivity].
Qed.

(** X22: an object the loader makes from a toolhead with a positive
    [max_accel] has positive X and Y ceilings and that [max_accel] as its
    [config_max_accel]; a ceiling the configuration does not give is that
    [max_accel], the policy is independent unless the configuration asks
    for scaling, and [SET_KINEMATICS_LIMIT] is the one command
    registered, with [cmd_SET_KINEMATICS_LIMIT] as its handler. *)
Theorem load_kinematics_establishes {base : CoreXYConstructor}
  (toolhead : ToolHead) (config : ConfigWrapper) (k : Kin)
  (commands : list (string * (GCodeCommand -> M unit))) :
  0 < max_accel toolhead ->
  load_kinematics toolhead config = inr (k, commands) ->
  positive_ceilings k /\
  config_max_accel k = max_accel toolhead /\
  (opt_max_x_accel config = None -> max_x_accel k = max_accel toolhead) /\
  (opt_max_y_accel config = None -> max_y_accel k = max_accel toolhead) /\
  (opt_scale_xy_accel config = None -> scale_per_axis k = false) /\
  commands = [("SET_KINEMATICS_LIMIT"%string, cmd_SET_KINEMATICS_LIMIT)].
Proof.
  intros Ha Hload. rewrite load_kinematics_cases in Hload.
  destruct (base__init__ toolhead config) as [e|[vz az]]; [discriminate|].
  destruct (valid_option_dec (opt_max_x_accel config)) as [Hx|Hx].
  2:{ rewrite (getfloat_invalid _ _ Hx) in Hload. discriminate. }
  destruct (valid_option_dec (opt_max_y_accel config)) as [Hy|Hy].
  2:{ rewrite (getfloat_invalid _ _ Hy) in Hload.
      destruct (getfloat _ _ _); discriminate. }
  rewrite (getfloat_valid _ _ Hx), (getfloat_valid _ _ Hy) in Hload.
  injection Hload as <- <-. unfold constructed, positive_ceilings. cbn.
  repeat split; try (intros ->; reflexivity).
  - destruct (opt_max_x_accel config); simpl in *; lra.
  - destruct (opt_max_y_accel config); simpl in *; lra.
Qed.

Lemma load_kinematics_establishes_witness :
  positive_ceilings (constructed toolhead3000 config_defaults 25 100) /\
  config_max_accel (constructed toolhead3000 config_defaults 25 100) = 3000.
Proof.
  destruct (@load_kinematics_establishes base_z_25_100 toolhead3000
              config_defaults
              (constructed toolhead3000 config_defaults 25 100)
              [("SET_KINEMATICS_LIMIT"%string, cmd_SET_KINEMATICS_LIMIT)])
    as (Hp & Hc & _); [simpl; lra | reflexivity |].
  split; [exact Hp | exact Hc].
Defined.

(** The object the loader makes from options that pass. *)
Lemma load_kinematics_accepts {base : CoreXYConstructor}
  (toolhead : ToolHead) (config : ConfigWrapper) (vz az : R) :
  base__init__ toolhead config = inr (vz, az) ->
  valid_option (opt_max_x_accel config) ->
  valid_option (opt_max_y_accel config) ->
  load_kinematics toolhead config =
  inr (constructed toolhead config vz az,
       [("SET_KINEMATICS_LIMIT"%string, cmd_SET_KINEMATICS_LIMIT)]).
Proof.
  intros Hb Hx Hy. rewrite load_kinematics_cases, Hb.
  now rewrite (getfloat_valid _ _ Hx), (getfloat_valid _ _ Hy).
Qed.

(** X23: the configuration may set a ceiling that the command would
    refuse.  A [max_x_accel] above the toolhead's [max_accel] is accepted
    by the loader, and the object keeps it, above its [config_max_accel];
    the command given the same value as [X_ACCEL] fails with [RangeError]
    and changes nothing. *)
Theorem configured_ceiling_may_exceed_runtime_range
  {base : CoreXYConstructor}
  (toolhead : ToolHead) (config : ConfigWrapper) (vz az v : R) :
  base__init__ toolhead config = inr (vz, az) ->
  opt_max_x_accel config = Some v ->
  valid_option (opt_max_y_accel config) ->
  0 < max_accel toolhead < v ->
  exists k commands,
    load_kinematics toolhead config = inr (k, commands) /\
    max_x_accel k = v /\ config_max_accel k < max_x_accel k /\
    forall cs,
      cmd_SET_KINEMATICS_LIMIT (mkGcmd (Some v) None None None) (mkWorld k cs)
      = (inl RangeError, mkWorld k cs).
Proof.
  intros Hb Hx Hy Hv.
  eexists _, _. split; [|split; [|split]].
  - apply (load_kinematics_accepts toolhead config vz az Hb); [|exact Hy].
    rewrite Hx. simpl. lra.
  - unfold constructed. cbn. now rewrite Hx.
  - unfold constructed. cbn. rewrite Hx. simpl. lra.
  - intros cs. apply cmd_x_invalid.
    exists v. split; [reflexivity|]. right. cbn. lra.
Qed.

Lemma configured_ceiling_may_exceed_runtime_range_witness :
  exists k commands,
    @load_kinematics base_z_25_100 (mkToolHead 300 9000) config_12000_4000 =
    inr (k, commands) /\
    max_x_accel k = 12000 /\ config_max_accel k < max_x_accel k /\
    forall cs,
      cmd_SET_KINEMATICS_LIMIT (mkGcmd (Some 12000) None None None)
        (mkWorld k cs) = (inl RangeError, mkWorld k cs).
Proof.
  apply (@configured_ceiling_may_exceed_runtime_range base_z_25_100
           (mkToolHead 300 9000) config_12000_4000 25 100 12000);
    try reflexivity; simpl; lra.
Defined.

(** ** The policy flag is read last *)

(** X25: a [SCALE] outside 0..1 is refused only after the three ceilings
    have been assigned: the command fails with [RangeError] and sends no
    report, the policy flag keeps its old value, and each ceiling holds
    the value given for it, if one was given. *)
Theorem scale_rejected_after_ceilings
  (gcmd : GCodeCommand) (w : World) (n : Z) :
  let cfg := config_max_accel (self w) in
  let r := cmd_SET_KINEMATICS_LIMIT gcmd w in
  valid_accel cfg (X_ACCEL gcmd) ->
  valid_accel cfg (Y_ACCEL gcmd) ->
  valid_accel cfg (Z_ACCEL gcmd) ->
  SCALE gcmd = Some n -> (n < 0 \/ 1 < n)%Z ->
  fst r = inl RangeError /\
  calls (snd r) = calls w /\
  scale_per_axis (self (snd r)) = scale_per_axis (self w) /\
  max_x_accel (self (snd r)) = chosen (X_ACCEL gcmd) (max_x_accel (self w)) /\
  max_y_accel (self (snd r)) = chosen (Y_ACCEL gcmd) (max_y_accel (self w)) /\
  max_z_accel (self (snd r)) = chosen (Z_ACCEL gcmd) (max_z_accel (self w)).
Proof.
  intros cfg r Hx Hy Hz Hs Hn. subst r.
  rewrite (cmd_scale_invalid gcmd w n Hx Hy Hz Hs Hn).
  cbn. repeat split.
Qed.

Lemma scale_rejected_after_ceilings_witness :
  fst (cmd_SET_KINEMATICS_LIMIT gcmd_x_5000_scale_2 world9000) =
  inl RangeError /\
  scale_per_axis
    (self (snd (cmd_SET_KINEMATICS_LIMIT gcmd_x_5000_scale_2 world9000))) =
  false /\
  max_x_accel
    (self (snd (cmd_SET_KINEMATICS_LIMIT gcmd_x_5000_scale_2 world9000))) =
  5000.
Proof.
  destruct (scale_rejected_after_ceilings gcmd_x_5000_scale_2 world9000 2)
    as (Hr & _ & Hs & Hx & _);
    try reflexivity; simpl; try exact I; try lra; try lia.
  repeat split; assumption.
Defined.

(** * The move evaluator on binary64: proofs

    The operations of [float] are specified by the Standard Library
    against [SpecFloat]: a float is a zero, an infinity, NaN or a sign, a
    significand and an exponent, and each operation computes on those and
    rounds.  The facts below follow that specification. *)

Section binary64.

Import PrimFloat SpecFloat FloatOps FloatAxioms.
Import Binary64.
Local Open Scope Z_scope.

(** ** Rounding a nonzero number

    A significand of [d] bits is at least [2^(d-1)], and rounding to 53
    bits shifts it right by fewer than [d] bits as long as the exponent is
    not below the least one, [-1074]. *)

Lemma digits2_lower (m : positive) :
  2 ^ (Z.pos (digits2_pos m) - 1) <= Z.pos m.
Proof.
  induction m as [m IH|m IH|]; cbn [digits2_pos]; [| |cbn; lia].
  - rewrite Pos2Z.inj_succ.
    replace (Z.succ (Z.pos (digits2_pos m)) - 1)
      with (Z.succ (Z.pos (digits2_pos m) - 1)) by lia.
    rewrite Z.pow_succ_r by lia. lia.
  - rewrite Pos2Z.inj_succ.
    replace (Z.succ (Z.pos (digits2_pos m)) - 1)
      with (Z.succ (Z.pos (digits2_pos m) - 1)) by lia.
    rewrite Z.pow_succ_r by lia. lia.
Qed.

Lemma shr_1_m (mrs : shr_record) :
  0 <= shr_m mrs -> shr_m (shr_1 mrs) = shr_m mrs / 2.
Proof.
  destruct mrs as [m r s]. cbn [shr_m shr_1].
  destruct m as [|[p|p|]|p]; intros H; cbn [shr_m]; try lia.
  - reflexivity.
  - rewrite Pos2Z.inj_xI. apply Z.div_unique with 1; lia.
  - rewrite Pos2Z.inj_xO. apply Z.div_unique with 0; lia.
  - reflexivity.
Qed.

Lemma iter_shr_m (p : positive) :
  forall mrs, 0 <= shr_m mrs ->
  shr_m (iter_pos shr_1 p mrs) = shr_m mrs / 2 ^ Z.pos p.
Proof.
  induction p as [p IH|p IH|]; intros mrs H; cbn [iter_pos].
  - assert (H1 : 0 <= shr_m (shr_1 mrs)).
    { rewrite shr_1_m by exact H. apply Z.div_pos; lia. }
    assert (H2 : 0 <= shr_m (iter_pos shr_1 p (shr_1 mrs))).
    { rewrite IH by exact H1. apply Z.div_pos; [exact H1|]. apply Z.pow_pos_nonneg; lia. }
    rewrite IH by exact H2. rewrite IH by exact H1. rewrite shr_1_m by exact H.
    rewrite !Z.div_div by (try apply Z.pow_pos_nonneg; lia).
    f_equal. rewrite Pos2Z.inj_xI.
    rewrite <- Z.pow_add_r by lia. rewrite <- Z.pow_succ_r by lia.
    f_equal. lia.
  - assert (H2 : 0 <= shr_m (iter_pos shr_1 p mrs)).
    { rewrite IH by exact H. apply Z.div_pos; [exact H|]. apply Z.pow_pos_nonneg; lia. }
    rewrite IH by exact H2. rewrite IH by exact H.
    rewrite !Z.div_div by (try apply Z.pow_pos_nonneg; lia).
    f_equal. rewrite Pos2Z.inj_xO.
    rewrite <- Z.pow_add_r by lia. f_equal. lia.
  - now rewrite shr_1_m.
Qed.


(** A right shift by fewer bits than the mantissa has keeps it positive. *)
Lemma shr_positive (m : positive) (r s : bool) (e n : Z) :
  n < Z.pos (digits2_pos m) ->
  exists m', shr_m (fst (shr (Build_shr_record (Z.pos m) r s) e n)) = Z.pos m' /\
             e <= snd (shr (Build_shr_record (Z.pos m) r s) e n).
Proof.
  intros Hn. destruct n as [|p|p]; cbn [shr fst snd shr_m];
    [exists m; split; [reflexivity|lia] | | exists m; split; [reflexivity|lia]].
  rewrite iter_shr_m by (cbn; lia). cbn [shr_m].
  assert (H : 1 <= Z.pos m / 2 ^ Z.pos p).
  { pose proof (digits2_lower m) as Hd.
    apply Z.div_le_lower_bound; [apply Z.pow_pos_nonneg; lia|].
    rewrite Z.mul_1_r.
    apply Z.le_trans with (2 := Hd).
    apply Z.pow_le_mono_r; lia. }
  destruct (Z.pos m / 2 ^ Z.pos p) as [|q|q]; try lia.
  exists q. split; [reflexivity|lia].
Qed.

Lemma shr_fexp_positive (m : positive) (e : Z) (l : location) :
  emin <= e ->
  exists m', shr_m (fst (shr_fexp prec emax (Z.pos m) e l)) = Z.pos m' /\
             emin <= snd (shr_fexp prec emax (Z.pos m) e l).
Proof.
  intros He. unfold shr_fexp.
  assert (Hn : fexp prec emax (Zdigits2 (Z.pos m) + e) - e
               < Z.pos (digits2_pos m)).
  { unfold fexp, SpecFloat.emin, prec, emax in *. cbn [Zdigits2]. lia. }
  destruct l as [|[]]; cbn [shr_record_of_loc];
    match goal with
    | |- context [shr (Build_shr_record _ ?r ?s) _ _] =>
        destruct (shr_positive m r s e _ Hn) as (m' & Hm & Hle)
    end; exists m'; (split; [exact Hm | lia]).
Qed.

Lemma round_nearest_even_positive (m : positive) (l : location) :
  exists m', round_nearest_even (Z.pos m) l = Z.pos m'.
Proof.
  destruct l as [|[]]; cbn [round_nearest_even]; eauto.
  - destruct (Z.even (Z.pos m)); eauto.
    exists (m + 1)%positive. reflexivity.
  - exists (m + 1)%positive. reflexivity.
Qed.

(** Rounding a nonzero significand at an exponent that is not below the
    least one gives a nonzero number or an infinity, with the same sign. *)
Lemma binary_round_aux_nonzero (sx : bool) (m : positive) (e : Z)
  (l : location) :
  emin <= e ->
  (exists m' e', binary_round_aux prec emax sx (Z.pos m) e l
                 = S754_finite sx m' e') \/
  binary_round_aux prec emax sx (Z.pos m) e l = S754_infinity sx.
Proof.
  intros He. unfold binary_round_aux.
  destruct (shr_fexp_positive m e l He) as (m1 & Hm1 & He1).
  destruct (shr_fexp prec emax (Z.pos m) e l) as [mrs1 e1].
  cbn [fst snd] in Hm1, He1. rewrite Hm1.
  destruct (round_nearest_even_positive m1 (loc_of_shr_record mrs1))
    as (m2 & Hm2).
  rewrite Hm2.
  destruct (shr_fexp_positive m2 e1 loc_Exact He1) as (m3 & Hm3 & He3).
  destruct (shr_fexp prec emax (Z.pos m2) e1 loc_Exact) as [mrs3 e3].
  cbn [fst snd] in Hm3, He3. rewrite Hm3.
  destruct (e3 <=? emax - prec); [left; eauto | right; reflexivity].
Qed.

Lemma binary_round_nonzero (sx : bool) (m : positive) (e : Z) :
  emin <= e ->
  (exists m' e', binary_round prec emax sx m e = S754_finite sx m' e') \/
  binary_round prec emax sx m e = S754_infinity sx.
Proof.
  intros He. unfold binary_round.
  destruct (shl_align m e (fexp prec emax (Z.pos (digits2_pos m) + e)))
    as [mz ez] eqn:E.
  apply binary_round_aux_nonzero.
  unfold shl_align in E.
  assert (Hf : emin <= fexp prec emax (Z.pos (digits2_pos m) + e)).
  { unfold fexp. lia. }
  destruct (fexp prec emax (Z.pos (digits2_pos m) + e) - e);
    injection E as <- <-; assumption.
Qed.

(** The sum of two significands at a common exponent rounds to zero only
    when it is zero. *)
Lemma binary_normalize_zero (m e : Z) (szero s : bool) :
  emin <= e ->
  binary_normalize prec emax m e szero = S754_zero s -> m = 0.
Proof.
  intros He. destruct m as [|p|p]; [reflexivity| |]; cbn [binary_normalize];
    intros H.
  - destruct (binary_round_nonzero false p e He) as [(m' & e' & H')|H'];
      congruence.
  - destruct (binary_round_nonzero true p e He) as [(m' & e' & H')|H'];
      congruence.
Qed.

Lemma binary_normalize_nonzero (m e : Z) (szero : bool) :
  emin <= e -> m <> 0 ->
  (exists s m' e', binary_normalize prec emax m e szero = S754_finite s m' e')
  \/ exists s, binary_normalize prec emax m e szero = S754_infinity s.
Proof.
  intros He Hm. destruct m as [|p|p]; [contradiction| |];
    cbn [binary_normalize].
  - destruct (binary_round_nonzero false p e He) as [(m' & e' & H')|H'];
      rewrite H'; eauto.
  - destruct (binary_round_nonzero true p e He) as [(m' & e' & H')|H'];
      rewrite H'; eauto.
Qed.

Lemma valid_exponent (s : bool) (m : positive) (e : Z) :
  valid_binary (S754_finite s m e) = true -> emin <= e.
Proof.
  cbn [SpecFloat.valid_binary]. unfold bounded, canonical_mantissa.
  intros H. apply andb_true_iff in H. destruct H as [H _].
  apply Z.eqb_eq in H. unfold fexp in H. lia.
Qed.


(** ** Zero tests *)

Lemma Prim2SF_zero : Prim2SF zero = S754_zero false.
Proof. reflexivity. Qed.

Lemma is_zero_spec (f : float) : is_zero f = SFzero (Prim2SF f).
Proof.
  unfold is_zero. rewrite eqb_spec, Prim2SF_zero.
  destruct (Prim2SF f) as [s|s| |s m e]; try reflexivity;
    destruct s; reflexivity.
Qed.

Lemma positive_spec (f : float) : (zero <? f)%float = SFpositive (Prim2SF f).
Proof.
  rewrite ltb_spec, Prim2SF_zero.
  destruct (Prim2SF f) as [s|s| |s m e]; try reflexivity;
    destruct s; reflexivity.
Qed.

Lemma SFabs_zero (X : spec_float) : SFzero (SFabs X) = SFzero X.
Proof. now destruct X. Qed.



(** ** Python's operations *)

Lemma div64_ok (a b : float) :
  is_zero b = false -> div a b = inr (a / b)%float.
Proof. unfold div. now intros ->. Qed.

Lemma gt_zero_nonzero (a : float) :
  gt a 0 = true -> is_zero a = false.
Proof.
  unfold gt. rewrite positive_spec, is_zero_spec.
  now destruct (Prim2SF a) as [s|s| |s m e].
Qed.

Lemma truthy_abs_nonzero (z : float) :
  truthy z = true -> is_zero (abs z) = false.
Proof.
  unfold truthy. rewrite !is_zero_spec, abs_spec, SFabs_zero.
  now destruct (SFzero (Prim2SF z)).
Qed.

Lemma Prim2SF_max (a b : float) :
  Prim2SF (max a b) =
  if SFltb (Prim2SF a) (Prim2SF b) then Prim2SF b else Prim2SF a.
Proof.
  unfold max. rewrite ltb_spec.
  now destruct (SFltb (Prim2SF a) (Prim2SF b)).
Qed.


(** ** A sum and a difference that both vanish *)

(** When [max(abs(u), abs(v))] is zero, [u] is zero and [v] is zero or
    NaN. *)
Lemma max_abs_zero (U V : spec_float) :
  SFzero (if SFltb (SFabs U) (SFabs V) then SFabs V else SFabs U) = true ->
  SFzero U = true /\ (SFzero V = true \/ V = S754_nan).
Proof.
  destruct U as [su|su| |su mu eu], V as [sv|sv| |sv mv ev];
    cbn [SFabs]; unfold SFltb; cbn [SFcompare];
    try (intros H; now auto);
    try (cbn; discriminate).
  destruct (match (eu ?= ev) with Eq => Pos.compare_cont Eq mu mv | Lt => Lt | Gt => Gt end);
    cbn; discriminate.
Qed.

Lemma cond_Zopp_nonzero (s : bool) (m : positive) :
  cond_Zopp s (Z.pos m) <> 0.
Proof. destruct s; cbn; lia. Qed.

(** If the sum of two floats is zero and their difference is zero or NaN,
    both are zero: a sum of floats does not round to zero. *)
Lemma add_sub_zero (P Q : spec_float) :
  valid_binary P = true -> valid_binary Q = true ->
  SFzero (SF64add P Q) = true ->
  SFzero (SF64sub P Q) = true \/ SF64sub P Q = S754_nan ->
  SFzero P = true /\ SFzero Q = true.
Proof.
  intros VP VQ.
  destruct P as [sp|sp| |sp mp ep], Q as [sq|sq| |sq mq eq];
    try (cbn; intros; now auto);
    try (cbn; intros; discriminate);
    try (destruct sp, sq; cbn; intros; discriminate).
  unfold SF64add, SF64sub, SFadd, SFsub.
  apply valid_exponent in VP, VQ.
  set (ez := Z.min ep eq).
  assert (Hez : emin <= ez) by (unfold ez; lia).
  set (A := cond_Zopp sp (Z.pos (fst (shl_align mp ep ez)))).
  set (B := cond_Zopp sq (Z.pos (fst (shl_align mq eq ez)))).
  assert (HA : A <> 0) by apply cond_Zopp_nonzero.
  assert (HB : B <> 0) by apply cond_Zopp_nonzero.
  intros HU HV. exfalso.
  destruct (binary_normalize prec emax (A + B) ez false) as [s| | |] eqn:EU;
    try discriminate HU.
  apply binary_normalize_zero in EU; [|exact Hez].
  assert (Hd : A - B <> 0) by lia.
  destruct (binary_normalize_nonzero (A - B) ez false Hez Hd)
    as [(s' & m' & e' & E)|(s' & E)]; rewrite E in HV;
    destruct HV; discriminate.
Qed.

(** The divisor [max(abs(p + q), abs(p - q))] of lines 84 and 85 is zero
    exactly when [p] and [q] both are. *)
Lemma divisor_zero (p q : float) :
  is_zero (max (abs (p + q)) (abs (p - q))) =
  is_zero p && is_zero q.
Proof.
  rewrite !is_zero_spec, Prim2SF_max, !abs_spec, add_spec, sub_spec.
  pose proof (Prim2SF_valid p) as Vp. pose proof (Prim2SF_valid q) as Vq.
  destruct (SFzero (Prim2SF p) && SFzero (Prim2SF q)) eqn:E.
  - apply andb_true_iff in E. destruct E as [Ep Eq].
    destruct (Prim2SF p) as [sp| | |]; try discriminate.
    destruct (Prim2SF q) as [sq| | |]; try discriminate.
    now destruct sp, sq.
  - destruct (SFzero (if SFltb _ _ then _ else _)) eqn:D; [|reflexivity].
    apply max_abs_zero in D. destruct D as [DU DV].
    destruct (add_sub_zero _ _ Vp Vq DU DV) as [Zp Zq].
    now rewrite Zp, Zq in E.
Qed.


(** A divisor of that form is zero, positive or NaN. *)
Lemma divisor_sign (u v : float) :
  let d := max (abs u) (abs v) in
  gt d 0 = negb (is_zero d) && negb (is_nan d).
Proof.
  cbv zeta. unfold gt, is_nan.
  rewrite positive_spec, is_zero_spec, eqb_spec, Prim2SF_max, !abs_spec.
  assert (H : forall W, SFpositive (SFabs W) =
                negb (SFzero (SFabs W)) &&
                negb (negb (SFeqb (SFabs W) (SFabs W)))).
  { intros [s|s| |s m e]; try reflexivity.
    unfold SFeqb. cbn.
    now rewrite Z.compare_refl, Pos.compare_cont_refl. }
  destruct (SFltb _ _); apply H.
Qed.

(** ** The blocks of [check_move] *)

Local Open Scope py64_scope.

Lemma check_move64_blocks {base : CoreXYKinematics} (move : Move) :
  check_move move =
  if negb (is_kinematic_move move) then ret tt else
  check_endstops move ;;;
  '(x, y, z) <- lift (unpack3 (axes_d move)) ;;
  '(max_v, max_a, max_pa) <-
    xy_block (max_velocity (toolhead move)) (max_accel (toolhead move))
             (move_d move) x y ;;
  '(max_v, max_a) <- z_block max_v max_a (move_d move) z ;;
  call (LimitSpeed max_v max_a max_pa).
Proof. reflexivity. Qed.

(** The block under [if z:] raises nothing: [abs(z)] is zero only when
    [z] is. *)
Lemma z_block64_returns (max_v max_a move_d z : float) (w : World) :
  exists v a, z_block max_v max_a move_d z w = (inr (v, a), w).
Proof.
  unfold z_block. destruct (truthy z) eqn:Tz; [|unfold ret; eauto].
  unfold bind, lift, getattr, ret.
  rewrite (div64_ok _ _ (truthy_abs_nonzero _ Tz)). eauto.
Qed.

(** The block under [if ab_linf > 0:] raises exactly when one of its two
    divisors is zero, that is when both quotients of that divisor are. *)
Lemma xy_block64_outcome (max_v max_a move_d x y : float) (w : World) :
  let k := self w in
  gt (ab_linf x y) 0 = true ->
  gt (max_x_accel k) 0 = true ->
  gt (max_y_accel k) 0 = true ->
  (scale_per_axis k = true -> is_zero (config_max_accel k) = false) ->
  if quotients_vanish x y (max_y_accel k) (max_x_accel k) ||
     quotients_vanish x y (max_x_accel k) (max_y_accel k)
  then xy_block max_v max_a move_d x y w = (inl ZeroDivisionError, w)
  else exists caps, xy_block max_v max_a move_d x y w = (inr caps, w).
Proof.
  intros k Hab Hx Hy Hcfg. subst k.
  assert (Hdiv : forall a p q,
            div a (max (abs (p + q)) (abs (p - q))) =
            if is_zero p && is_zero q then inl ZeroDivisionError
            else inr (a / max (abs (p + q)) (abs (p - q)))%float).
  { intros a p q. unfold div. now rewrite divisor_zero. }
  unfold xy_block. rewrite Hab.
  unfold bind, lift, getattr, ret, raise.
  rewrite (div64_ok _ _ (gt_zero_nonzero _ Hab)).
  rewrite !(div64_ok _ (max_x_accel (self w)))
    by exact (gt_zero_nonzero _ Hx).
  rewrite !(div64_ok _ (max_y_accel (self w)))
    by exact (gt_zero_nonzero _ Hy).
  unfold quotients_vanish.
  destruct (scale_per_axis (self w)) eqn:Hs;
    [rewrite (div64_ok _ _ (Hcfg eq_refl))|];
    rewrite !Hdiv;
    (destruct (is_zero (x / max_y_accel (self w)) &&
               is_zero (y / max_x_accel (self w))); [reflexivity|]);
    (destruct (is_zero (x / max_x_accel (self w)) &&
               is_zero (y / max_y_accel (self w))); [reflexivity|]);
    cbn [orb]; eauto.
Qed.

(** X27: on binary64, a kinematic move for which [ab_linf > 0] is false
    (no displacement in the XY plane, or a NaN one), that passes the
    endstop check and has three axes, reaches [limit_speed] whatever its
    [z] is, with [max_pa] the requested acceleration: outside the XY
    block [check_move] has no division that can raise. *)
Theorem no_xy_move_returns64 {base : CoreXYKinematics}
  (move : Move) (w : World) (x y z : float) (rest : list float) :
  is_kinematic_move move = true ->
  _check_endstops (self w) move = None ->
  axes_d move = x :: y :: z :: rest ->
  gt (ab_linf x y) 0 = false ->
  exists v a,
    check_move move w =
    (inr tt,
     mkWorld (self w)
       (calls w ++ [CheckEndstops move;
                    LimitSpeed v a (max_accel (toolhead move))])).
Proof.
  intros Hkin Hend Hax Hab.
  rewrite check_move64_blocks, Hkin. cbn [negb].
  unfold bind at 1. unfold check_endstops. rewrite Hend.
  unfold bind at 1. rewrite Hax. cbn [unpack3 firstn lift ret].
  unfold bind at 1. unfold xy_block. rewrite Hab. cbn [ret].
  unfold bind at 1.
  set (w1 := mkWorld (self w) (calls w ++ [CheckEndstops move])).
  destruct (z_block64_returns (max_velocity (toolhead move))
              (max_accel (toolhead move)) (move_d move) z w1)
    as (v & a & ->).
  exists v, a. unfold call, w1. cbn [self calls].
  now rewrite <- app_assoc.
Qed.

Lemma no_xy_move_returns64_witness :
  exists v a,
    @check_move homed pure_z_50 (mkWorld kin9000 []) =
    (inr tt,
     mkWorld kin9000 [CheckEndstops pure_z_50; LimitSpeed v a 3000]).
Proof.
  apply (@no_xy_move_returns64 homed pure_z_50 (mkWorld kin9000 [])
           0 0 50 [0]%float); reflexivity.
Defined.

(** ** The guard of the block under [if ab_linf > 0:] *)

(** C6, as stated, fails: the move of [2^-1074] mm along X has
    [ab_linf > 0], and against ceilings of 9000 its quotients
    [x / max_x_accel] and [x / max_y_accel] round to zero, so both
    divisors are [0.0] and line 84 raises [ZeroDivisionError]. *)
Lemma xy_guard_fails_on_underflow :
  ~ @xy_divisions_guarded homed least_x_move (mkWorld kin9000 []).
Proof.
  intros H.
  destruct (H 0x1p-1074 0 0 [0]%float)%float as (_ & _ & Hne);
    try reflexivity.
  apply Hne. reflexivity.
Qed.

(** C6, amended: for a kinematic move with [ab_linf > 0] against positive
    ceilings (and a [config_max_accel] that is not zero under the scaling
    policy), each divisor of the XY branch is zero exactly when the two
    quotients it is built from are both zero as floats, and is strictly
    positive otherwise unless it is NaN.  [check_move] raises
    [ZeroDivisionError] exactly in that case and returns otherwise.
    [ab_linf > 0] gives a nonzero [x] or [y], but does not keep its
    quotient by a ceiling from rounding to zero. *)
Theorem xy_divisions_raise_iff_quotients_vanish
  {base : CoreXYKinematics}
  (move : Move) (w : World) (x y z : float) (rest : list float) :
  let k := self w in
  let ax := max_x_accel k in
  let ay := max_y_accel k in
  let d_pa := divisor_pa k x y in
  let d_a := divisor_a k x y in
  is_kinematic_move move = true ->
  _check_endstops k move = None ->
  axes_d move = x :: y :: z :: rest ->
  gt (ab_linf x y) 0 = true ->
  gt ax 0 = true ->
  gt ay 0 = true ->
  (scale_per_axis k = true -> is_zero (config_max_accel k) = false) ->
  is_zero d_pa = quotients_vanish x y ay ax /\
  is_zero d_a = quotients_vanish x y ax ay /\
  gt d_pa 0 = negb (is_zero d_pa) && negb (is_nan d_pa) /\
  gt d_a 0 = negb (is_zero d_a) && negb (is_nan d_a) /\
  fst (check_move move w) =
  if quotients_vanish x y ay ax || quotients_vanish x y ax ay
  then inl ZeroDivisionError else inr tt.
Proof.
  intros k ax ay d_pa d_a Hkin Hend Hax Hab Hx Hy Hcfg.
  split; [apply divisor_zero|]. split; [apply divisor_zero|].
  split; [apply divisor_sign|]. split; [apply divisor_sign|].
  rewrite check_move64_blocks, Hkin. cbn [negb].
  unfold bind at 1. unfold check_endstops. fold k. rewrite Hend.
  unfold bind at 1. rewrite Hax. cbn [unpack3 firstn lift ret].
  set (w1 := mkWorld k (calls w ++ [CheckEndstops move])).
  pose proof (xy_block64_outcome (max_velocity (toolhead move))
                (max_accel (toolhead move)) (move_d move) x y w1
                Hab Hx Hy Hcfg) as Hxy.
  cbv zeta in Hxy. change (self w1) with k in Hxy. fold ax ay in Hxy.
  unfold bind at 1.
  destruct (quotients_vanish x y ay ax || quotients_vanish x y ax ay).
  - now rewrite Hxy.
  - destruct Hxy as ([[v a] pa] & ->).
    unfold bind at 1.
    destruct (z_block64_returns v a (move_d move) z w1) as (v' & a' & ->).
    reflexivity.
Qed.

(** The amended C6 at the move of 30 mm along X and 40 mm along Y against
    ceilings of 9000 and 4000: no quotient vanishes and the move reaches
    [limit_speed]. *)
Lemma xy_divisions_raise_iff_quotients_vanish_witness :
  fst (@check_move homed move_30_40 (mkWorld kin_scaled [])) = inr tt.
Proof.
  apply (@xy_divisions_raise_iff_quotients_vanish homed move_30_40
           (mkWorld kin_scaled []) 30 40 0 [0]%float); reflexivity.
Defined.

End binary64.
